(** * YT-slice: the playlist route ([src/app/api/playlist/route.ts])

    A shallow embedding of the route handler and of its helpers, and the
    properties of the playlist specification proved about them.

    Conventions of the embedding.
    - A JavaScript number that holds an integer is a [Z], and a division is
      taken in [Q], with [Math.round] as [floor (x + 1/2)].  The numbers of
      the program are binary64: the sums and products of integers are those
      of [Z] as long as every result stays within [MAX_SAFE_INTEGER],
      2^53 - 1, and a rounded quotient is the one of [Q] below a smaller
      bound that depends on the divisor.  Beyond these bounds the program
      rounds and the embedding does not: the properties that state the
      value of a decoded duration, of a total, of an average or of an
      estimate carry their bound as a hypothesis.  A division by zero is
      0 in [Q] and [Infinity] or [NaN] in the program; no property here
      divides by zero.
    - A JavaScript string is a [string]; a property that may be [undefined]
      is an [option].  The body of the request has the types of the README
      and of the form's [FormData]: a string, two numbers that hold
      integers, a boolean.
    - [fetch] talks to the catalog service.  The service is a record of three
      responders over a state of its own; every function that awaits a
      [fetch] is a computation in the monad [M], which threads the state of
      the service, collects the calls made, and ends in a value, a thrown
      error or an exhausted budget.  The budget bounds the pages that the
      [do ... while] loop may request; the [for] loop has a bound of its
      own that it never reaches. *)

From Stdlib Require Import ZArith List Bool Ascii String Lia QArith Qround.
From Stdlib Require Import Permutation.
From Stdlib Require Import DecimalString DecimalN DecimalPos DecimalFacts.
Import ListNotations.

Local Open Scope string_scope.
Local Open Scope Z_scope.

(** ** JavaScript values *)

Module Js.

(** Truthiness of a string, of an optional string and of a number. *)
Definition truthy_string (s : string) : bool :=
  match s with EmptyString => false | String _ _ => true end.

Definition truthy_opt_string (o : option string) : bool :=
  match o with Some s => truthy_string s | None => false end.

Definition truthy_number (n : Z) : bool := negb (n =? 0).

(** [a || b] on an optional string. *)
Definition or_else (o : option string) (d : string) : string :=
  if truthy_opt_string o then match o with Some s => s | None => d end else d.

(** [Array.prototype.slice(start, end)]: a negative index counts from the
    end of the array, both indices are clamped to [0, length]. *)
Definition relative_index (len k : Z) : Z :=
  if k <? 0 then Z.max (len + k) 0 else Z.min k len.

Definition slice {A : Type} (l : list A) (start end_ : Z) : list A :=
  let len := Z.of_nat (List.length l) in
  let k := relative_index len start in
  let final := relative_index len end_ in
  firstn (Z.to_nat (final - k)) (skipn (Z.to_nat k) l).

(** [Array.prototype.join(sep)] on strings. *)
Fixpoint join (sep : string) (l : list string) : string :=
  match l with
  | [] => ""
  | [s] => s
  | s :: rest => s ++ sep ++ join sep rest
  end.

(** [Math.round] of a rational: the nearest integer, a half going up. *)
Definition Math_round (x : Q) : Z := Qfloor (x + (1 # 2)).

(** The character classes of the two regular expressions. *)
Definition is_digit (c : ascii) : bool :=
  let n := nat_of_ascii c in (48 <=? n)%nat && (n <=? 57)%nat.

Definition is_id_char (c : ascii) : bool :=
  let n := nat_of_ascii c in
  ((97 <=? n)%nat && (n <=? 122)%nat)
  || ((65 <=? n)%nat && (n <=? 90)%nat)
  || is_digit c
  || Ascii.eqb c "_" || Ascii.eqb c "-".

(** The longest prefix of [s] in a character class, and what follows it:
    a greedy [cls+] or [cls*]. *)
Fixpoint span (cls : ascii -> bool) (s : string) : string * string :=
  match s with
  | EmptyString => (EmptyString, EmptyString)
  | String c s' =>
      if cls c then let (run, rest) := span cls s' in (String c run, rest)
      else (EmptyString, s)
  end.

(** Every character of [s] is in the class; the first one is. *)
Fixpoint all (cls : ascii -> bool) (s : string) : bool :=
  match s with
  | EmptyString => true
  | String c s' => cls c && all cls s'
  end.

Definition head_in (cls : ascii -> bool) (s : string) : bool :=
  match s with
  | EmptyString => false
  | String c _ => cls c
  end.

(** A literal at the head of [s]: what follows it, if it is there. *)
Fixpoint strip_prefix (lit s : string) : option string :=
  match lit, s with
  | EmptyString, _ => Some s
  | String a lit', String b s' =>
      if Ascii.eqb a b then strip_prefix lit' s' else None
  | String _ _, EmptyString => None
  end.

(** [String.prototype.match] with a regular expression that is not
    anchored: the match is tried at every position, from the left. *)
Fixpoint search {A : Type} (match_here : string -> option A) (s : string)
  : option A :=
  match match_here s with
  | Some r => Some r
  | None =>
      match s with
      | EmptyString => None
      | String _ s' => search match_here s'
      end
  end.

(** [parseInt(s, 10)] on the digits at the head of [s].  The route calls it
    on a [\d+] capture or on ['0'] only, so that the [NaN] of a string
    without digits does not arise; it is 0 here. *)
Definition digit_value (c : ascii) : Z := Z.of_nat (nat_of_ascii c) - 48.

Fixpoint parse_digits (acc : Z) (s : string) : Z :=
  match s with
  | EmptyString => acc
  | String c s' =>
      if is_digit c then parse_digits (10 * acc + digit_value c) s' else acc
  end.

Definition parseInt10 (s : string) : Z := parse_digits 0 s.

(** The decimal digits of a non-negative integer, as [String(n)] or a
    template literal write it. *)
Definition toString (n : N) : string :=
  NilEmpty.string_of_uint (N.to_uint n).

End Js.

(** ** The interfaces of the route *)

Record PlaylistItem := mkPlaylistItem {
  item_title : string;        (* snippet.title *)
  item_videoId : string       (* snippet.resourceId.videoId *)
}.

Record VideoItem := mkVideoItem {
  video_id : string;          (* id *)
  video_title : string;       (* snippet.title *)
  video_duration : string     (* contentDetails.duration *)
}.

Record PlaylistResponse := mkPlaylistResponse {
  pr_items : list PlaylistItem;
  pr_nextPageToken : option string
}.

Record VideosResponse := mkVideosResponse {
  vr_items : list VideoItem
}.

(** The body of the [playlists] endpoint, as far as the route reads it:
    [items], when present, with the [snippet.title] of each. *)
Record PlaylistsData := mkPlaylistsData {
  pd_items : option (list string)
}.

(** ** extractPlaylistId *)

Definition host_long : string := "youtube.com/playlist?list=".
Definition host_short : string := "youtu.be/playlist?list=".

(** The capture group [([a-zA-Z0-9_-]+)] at the head of [s]. *)
Definition capture_id (s : string) : option string :=
  match Js.span Js.is_id_char s with
  | (EmptyString, _) => None
  | (id, _) => Some id
  end.

(** One attempt of the expression at the head of [s]: the first
    alternative, then the second. *)
Definition playlist_id_here (s : string) : option string :=
  let alt lit :=
    match Js.strip_prefix lit s with
    | Some rest => capture_id rest
    | None => None
    end in
  match alt host_long with
  | Some id => Some id
  | None => alt host_short
  end.

Definition extractPlaylistId (url : string) : option string :=
  Js.search playlist_id_here url.

(** [s] begins with a recognizable [list=] token: one of the two host
    patterns, then one character of the identifier at least. *)
Definition recognized_here (s : string) : Prop :=
  exists host c rest,
    (host = host_long \/ host = host_short)
    /\ Js.is_id_char c = true
    /\ s = host ++ String c rest.


(** ** parseDuration

    [parseInt] and the sum of line 51 are exact here; they are the ones of
    the program when the result is at most [MAX_SAFE_INTEGER]. *)

(** An optional group [(?:(\d+)U)?] at the head of [s]: the digits
    captured, if the group takes part in the match, and what follows. *)
Definition duration_component (unit : ascii) (s : string)
  : option string * string :=
  match Js.span Js.is_digit s with
  | (EmptyString, _) => (None, s)
  | (digits, String c rest) =>
      if Ascii.eqb c unit then (Some digits, rest) else (None, s)
  | (_, EmptyString) => (None, s)
  end.

(** The groups 1, 2 and 3 of a match. *)
Record DurationMatch := mkDurationMatch {
  dm_hours : option string;
  dm_minutes : option string;
  dm_seconds : option string
}.

Definition duration_here (s : string) : option DurationMatch :=
  match Js.strip_prefix "PT" s with
  | None => None
  | Some r0 =>
      let (h, r1) := duration_component "H" r0 in
      let (m, r2) := duration_component "M" r1 in
      let (sec, _) := duration_component "S" r2 in
      Some (mkDurationMatch h m sec)
  end.

Definition parseDuration (duration : string) : Z :=
  match Js.search duration_here duration with
  | None => 0
  | Some m =>
      let hours := Js.parseInt10 (Js.or_else (dm_hours m) "0") in
      let minutes := Js.parseInt10 (Js.or_else (dm_minutes m) "0") in
      let seconds := Js.parseInt10 (Js.or_else (dm_seconds m) "0") in
      hours * 3600 + minutes * 60 + seconds
  end.

(** The [format] of the specification, the converse of [parseDuration]:
    the period designator, then each component that is present, as its
    decimal digits and its unit letter. *)
Definition spec_component (value : option N) (unit : string) : string :=
  match value with
  | Some n => Js.toString n ++ unit
  | None => ""
  end.

Definition spec_format (h m s : option N) : string :=
  "PT" ++ spec_component h "H" ++ spec_component m "M" ++ spec_component s "S".

(** A component that is absent counts for zero. *)
Definition spec_value (value : option N) : Z :=
  match value with Some n => Z.of_N n | None => 0 end.


(** ** The catalog service and the monad of the route *)

(** What a [throw] carries: an [Error] with its message, or anything else. *)
Inductive Thrown :=
| Error (message : string)
| NotAnError.

(** What [await fetch(url)] and the [await response.json()] after it come
    to.  [Failed]: one of the two promises is rejected.  [NotOk]: the
    response has [ok] false; its error body is not JSON ([inl]) or gives
    [error?.message] ([inr]).  [Ok]: [ok] is true and the body is [data]. *)
Inductive Fetched (A : Type) :=
| Failed (e : Thrown)
| NotOk (errorData : Thrown + option string)
| Ok (data : A).
Arguments Failed {A} e.
Arguments NotOk {A} errorData.
Arguments Ok {A} data.

(** The search parameters of the three URLs. *)
Record PlaylistItemsQuery := mkPlaylistItemsQuery {
  piq_part : string;
  piq_playlistId : string;
  piq_maxResults : string;
  piq_key : string;
  piq_pageToken : option string
}.

Record VideosQuery := mkVideosQuery {
  vq_part : string;
  vq_id : string;
  vq_key : string
}.

Record PlaylistsQuery := mkPlaylistsQuery {
  pq_part : string;
  pq_id : string;
  pq_key : string
}.

(** One call of [fetch] with what came back. *)
Inductive Exchange :=
| PlaylistItemsCall (q : PlaylistItemsQuery) (r : Fetched PlaylistResponse)
| VideosCall (q : VideosQuery) (r : Fetched VideosResponse)
| PlaylistsCall (q : PlaylistsQuery) (r : Fetched PlaylistsData).

Definition is_videos_call (x : Exchange) : bool :=
  match x with VideosCall _ _ => true | _ => false end.

Definition is_playlists_call (x : Exchange) : bool :=
  match x with PlaylistsCall _ _ => true | _ => false end.

(** The external service: a state and one responder per endpoint. *)
Record Service (S : Type) := mkService {
  playlistItems : S -> PlaylistItemsQuery -> Fetched PlaylistResponse * S;
  videos : S -> VideosQuery -> Fetched VideosResponse * S;
  playlists : S -> PlaylistsQuery -> Fetched PlaylistsData * S
}.
Arguments playlistItems {S} _ _ _.
Arguments videos {S} _ _ _.
Arguments playlists {S} _ _ _.

Inductive Outcome (A : Type) :=
| Value (a : A)
| Throw (e : Thrown)
| Diverge.
Arguments Value {A} a.
Arguments Throw {A} e.
Arguments Diverge {A}.

(** A computation: from the state of the service to an outcome, the state
    afterwards and the calls made, in order. *)
Definition M (S A : Type) : Type := S -> Outcome A * S * list Exchange.

Definition ret {S A} (a : A) : M S A := fun s => (Value a, s, []).

Definition throw {S A} (e : Thrown) : M S A := fun s => (Throw e, s, []).

Definition diverge {S A} : M S A := fun s => (Diverge, s, []).

Definition bind {S A B} (m : M S A) (f : A -> M S B) : M S B :=
  fun s =>
    match m s with
    | (Value a, s1, t1) =>
        match f a s1 with (o, s2, t2) => (o, s2, (t1 ++ t2)%list) end
    | (Throw e, s1, t1) => (Throw e, s1, t1)
    | (Diverge, s1, t1) => (Diverge, s1, t1)
    end.

(** [try { m } catch (e) { handler e }]. *)
Definition try_catch {S A} (m : M S A) (handler : Thrown -> M S A) : M S A :=
  fun s =>
    match m s with
    | (Throw e, s1, t1) =>
        match handler e s1 with (o, s2, t2) => (o, s2, (t1 ++ t2)%list) end
    | r => r
    end.

Notation "x <- m ;; k" := (bind m (fun x => k))
  (at level 61, m at next level, right associativity).

Definition outcome {S A} (r : Outcome A * S * list Exchange) : Outcome A :=
  fst (fst r).
Definition calls {S A} (r : Outcome A * S * list Exchange) : list Exchange :=
  snd r.
Definition final_state {S A} (r : Outcome A * S * list Exchange) : S :=
  snd (fst r).

(** ** The response of the route *)

Record VideoData := mkVideoData {
  id : string;
  title : string;
  duration : string;
  durationSeconds : Z
}.

Record PlaylistData := mkPlaylistData {
  pl_title : string;
  totalVideos : Z;
  pl_videos : list VideoData
}.

Record ResultsData := mkResultsData {
  playlist : PlaylistData;
  selectedVideos : list VideoData;
  totalDuration : Z;
  averageDuration : Z
}.

Inductive ResponseBody :=
| ErrorBody (error : string)
| ResultBody (result : ResultsData).

Record HttpResponse := mkHttpResponse {
  status : Z;
  body : ResponseBody
}.

(** [NextResponse.json(body, { status })]; the status is 200 when the
    second argument is left out. *)
Definition json_error (error : string) (st : Z) : HttpResponse :=
  mkHttpResponse st (ErrorBody error).

Definition json_result (result : ResultsData) : HttpResponse :=
  mkHttpResponse 200 (ResultBody result).

(** The body of the request, after [await request.json()] and the
    destructuring.  A field that is missing and one that is falsy are told
    apart nowhere in the route ([!playlistUrl], [!startVideo], [!endVideo]
    and [completePlaylist] as a condition are all it does before using them),
    so [""], [0] and [false] stand for the missing field as well. *)
Record RequestBody := mkRequestBody {
  playlistUrl : string;
  startVideo : Z;
  endVideo : Z;
  completePlaylist : bool
}.

(** ** Pure steps of the handler *)

(** Lines 148-163: the selected items, or [None] for the 400 response
    of an invalid range. *)
Definition selectItems (completePlaylist : bool) (startVideo endVideo : Z)
    (playlistItems : list PlaylistItem) : option (list PlaylistItem) :=
  let length := Z.of_nat (List.length playlistItems) in
  if completePlaylist then Some playlistItems
  else if (startVideo <? 1) || (endVideo <? startVideo) || (startVideo >? length)
  then None
  else Some (Js.slice playlistItems (startVideo - 1) (Z.min endVideo length)).

(** Lines 170-180: the callback of [selectedItems.map]. *)
Definition toVideoData (videoDetails : list VideoItem) (item : PlaylistItem)
  : VideoData :=
  let videoDetail :=
    find (fun v => String.eqb (video_id v) (item_videoId item)) videoDetails in
  let durationSeconds :=
    match videoDetail with
    | Some v => parseDuration (video_duration v)
    | None => 0
    end in
  {| id := item_videoId item;
     title := item_title item;
     duration := Js.or_else (option_map video_duration videoDetail) "PT0S";
     durationSeconds := durationSeconds |}.

(** Lines 183-184.  The sum is exact here, and it is the sum of the
    program when it is [MAX_SAFE_INTEGER] at most.  The quotient is rounded
    from its exact value, as the program does when the total is below 2^52
    and there is a video at least, which the route has seen to before. *)
Definition sumDurations (selectedVideos : list VideoData) : Z :=
  fold_left (fun sum video => sum + durationSeconds video) selectedVideos 0.

Definition average (totalDuration : Z) (selectedVideos : list VideoData) : Z :=
  Js.Math_round
    (inject_Z totalDuration / inject_Z (Z.of_nat (List.length selectedVideos))).

(** Line 187: the title the result carries when the lookup gives none. *)
Definition fallbackTitle : string := "Unknown Playlist".

(** ** The catalog client and the handler *)

Section Route.

Context {S : Type} (service : Service S).

(** [await fetch(url)] followed by the reading of the body, per endpoint. *)
Definition fetchPlaylistItems (q : PlaylistItemsQuery)
  : M S (Fetched PlaylistResponse) :=
  fun s => let (r, s') := playlistItems service s q in
           (Value r, s', [PlaylistItemsCall q r]).

Definition fetchVideos (q : VideosQuery) : M S (Fetched VideosResponse) :=
  fun s => let (r, s') := videos service s q in
           (Value r, s', [VideosCall q r]).

Definition fetchPlaylists (q : PlaylistsQuery) : M S (Fetched PlaylistsData) :=
  fun s => let (r, s') := playlists service s q in
           (Value r, s', [PlaylistsCall q r]).

(** [throw new Error(errorData.error?.message || fallback)] after a response
    that is not ok. *)
Definition rejectNotOk {A} (errorData : Thrown + option string)
    (fallback : string) : M S A :=
  match errorData with
  | inl e => throw e
  | inr message => throw (Error (Js.or_else message fallback))
  end.

(** The [do ... while (nextPageToken)] loop; [budget] bounds the number of
    pages requested. *)
Fixpoint fetchAllPlaylistItems_loop (budget : nat) (playlistId apiKey : string)
    (allItems : list PlaylistItem) (nextPageToken : option string)
  : M S (list PlaylistItem) :=
  match budget with
  | O => diverge
  | Datatypes.S budget' =>
      let url :=
        {| piq_part := "snippet";
           piq_playlistId := playlistId;
           piq_maxResults := "50";
           piq_key := apiKey;
           piq_pageToken :=
             if Js.truthy_opt_string nextPageToken then nextPageToken
             else None |} in
      response <- fetchPlaylistItems url ;;
      match response with
      | Failed e => throw e
      | NotOk errorData => rejectNotOk errorData "Failed to fetch playlist items"
      | Ok data =>
          let allItems := (allItems ++ pr_items data)%list in
          let nextPageToken := pr_nextPageToken data in
          if Js.truthy_opt_string nextPageToken
          then fetchAllPlaylistItems_loop budget' playlistId apiKey
                 allItems nextPageToken
          else ret allItems
      end
  end.

Definition fetchAllPlaylistItems (budget : nat) (playlistId apiKey : string)
  : M S (list PlaylistItem) :=
  fetchAllPlaylistItems_loop budget playlistId apiKey [] None.

(** The [for (let i = 0; i < videoIds.length; i += 50)] loop.  [steps] is
    a bound on the iterations left; [List.length videoIds] is one, see
    [fetchVideoDetails_loop_calls]. *)
Fixpoint fetchVideoDetails_loop (steps : nat) (videoIds : list string)
    (apiKey : string) (i : Z) (allVideos : list VideoItem)
  : M S (list VideoItem) :=
  if i <? Z.of_nat (List.length videoIds) then
    match steps with
    | O => diverge
    | Datatypes.S steps' =>
        let batch := Js.slice videoIds i (i + 50) in
        let url :=
          {| vq_part := "snippet,contentDetails";
             vq_id := Js.join "," batch;
             vq_key := apiKey |} in
        response <- fetchVideos url ;;
        match response with
        | Failed e => throw e
        | NotOk errorData => rejectNotOk errorData "Failed to fetch video details"
        | Ok data =>
            fetchVideoDetails_loop steps' videoIds apiKey (i + 50)
              (allVideos ++ vr_items data)%list
        end
    end
  else ret allVideos.

Definition fetchVideoDetails (videoIds : list string) (apiKey : string)
  : M S (list VideoItem) :=
  fetchVideoDetails_loop (List.length videoIds) videoIds apiKey 0 [].

(** Lines 187-204: the title of the playlist, with its own [try ... catch]. *)
Definition lookupPlaylistTitle (playlistId apiKey : string) : M S string :=
  let playlistTitle := fallbackTitle in
  try_catch
    (let playlistUrl :=
       {| pq_part := "snippet"; pq_id := playlistId; pq_key := apiKey |} in
     playlistResponse <- fetchPlaylists playlistUrl ;;
     match playlistResponse with
     | Failed e => throw e
     | NotOk _ => ret playlistTitle
     | Ok playlistData =>
         match pd_items playlistData with
         | Some (first :: _) => ret first
         | Some [] | None => ret playlistTitle
         end
     end)
    (fun error => ret playlistTitle).

(** The handler.  [apiKey] is [process.env.YOUTUBE_API_KEY]. *)
Definition POST (budget : nat) (apiKey : option string) (request : RequestBody)
  : M S HttpResponse :=
  try_catch
    (if negb (Js.truthy_string (playlistUrl request))
        || (negb (completePlaylist request)
            && (negb (Js.truthy_number (startVideo request))
                || negb (Js.truthy_number (endVideo request))))
     then ret (json_error "Missing required fields" 400)
     else if negb (Js.truthy_opt_string apiKey)
     then ret (json_error "YouTube API key not configured" 500)
     else
       let apiKey := Js.or_else apiKey "" in
       let playlistId := extractPlaylistId (playlistUrl request) in
       if negb (Js.truthy_opt_string playlistId)
       then ret (json_error "Invalid YouTube playlist URL" 400)
       else
         let playlistId := Js.or_else playlistId "" in
         playlistItems <- fetchAllPlaylistItems budget playlistId apiKey ;;
         if Z.of_nat (List.length playlistItems) =? 0
         then ret (json_error "Playlist is empty or not found" 404)
         else
           match selectItems (completePlaylist request) (startVideo request)
                   (endVideo request) playlistItems with
           | None => ret (json_error "Invalid video range" 400)
           | Some selectedItems =>
               let videoIds := map item_videoId selectedItems in
               videoDetails <- fetchVideoDetails videoIds apiKey ;;
               let selectedVideos := map (toVideoData videoDetails) selectedItems in
               let totalDuration := sumDurations selectedVideos in
               let averageDuration := average totalDuration selectedVideos in
               playlistTitle <- lookupPlaylistTitle playlistId apiKey ;;
               let result :=
                 {| playlist :=
                      {| pl_title := playlistTitle;
                         totalVideos := Z.of_nat (List.length playlistItems);
                         pl_videos := [] |};
                    selectedVideos := selectedVideos;
                    totalDuration := totalDuration;
                    averageDuration := averageDuration |} in
               ret (json_result result)
           end)
    (fun error =>
       ret (json_error
              match error with
              | Error message => message
              | NotAnError => "An unexpected error occurred"
              end 500)).

End Route.

(** Line 114: the condition of the first 400 response. *)
Definition missingFields (request : RequestBody) : bool :=
  negb (Js.truthy_string (playlistUrl request))
  || (negb (completePlaylist request)
      && (negb (Js.truthy_number (startVideo request))
          || negb (Js.truthy_number (endVideo request)))).

(** ** The title lookup, in closed form *)

(** The lookup has failed: the promise is rejected, the response is not
    ok, or its body has no items. *)
Definition lookupFailed (r : Fetched PlaylistsData) : Prop :=
  match r with
  | Failed _ | NotOk _ => True
  | Ok playlistData =>
      pd_items playlistData = None \/ pd_items playlistData = Some []
  end.

(** The title that the handler takes from the response of the lookup. *)
Definition titleOf (r : Fetched PlaylistsData) : string :=
  match r with
  | Ok {| pd_items := Some (first :: _) |} => first
  | _ => fallbackTitle
  end.

Definition playlistsQuery (playlistId apiKey : string) : PlaylistsQuery :=
  {| pq_part := "snippet"; pq_id := playlistId; pq_key := apiKey |}.

(** The result of the handler from what it has fetched. *)
Definition resultOf (playlistTitle : string) (playlistItems selectedItems : list PlaylistItem)
    (videoDetails : list VideoItem) : ResultsData :=
  let selectedVideos := map (toVideoData videoDetails) selectedItems in
  {| playlist :=
       {| pl_title := playlistTitle;
          totalVideos := Z.of_nat (List.length playlistItems);
          pl_videos := [] |};
     selectedVideos := selectedVideos;
     totalDuration := sumDurations selectedVideos;
     averageDuration := average (sumDurations selectedVideos) selectedVideos |}.

(** The service with another responder for the title lookup. *)
Definition withPlaylists {S : Type} (service : Service S)
    (playlists' : S -> PlaylistsQuery -> Fetched PlaylistsData * S) : Service S :=
  {| playlistItems := playlistItems service;
     videos := videos service;
     playlists := playlists' |}.

(** ** The calls of the catalog client, in closed form *)

(** The search parameters of a page request: [pageToken] is set when the
    cursor of the page before is truthy. *)
Definition pageQuery (playlistId apiKey : string) (cursor : option string)
  : PlaylistItemsQuery :=
  {| piq_part := "snippet";
     piq_playlistId := playlistId;
     piq_maxResults := "50";
     piq_key := apiKey;
     piq_pageToken := if Js.truthy_opt_string cursor then cursor else None |}.

(** The requests that fetch [pages] one after the other, the first one with
    [cursor], each next one with the cursor of the page before it. *)
Fixpoint pageCalls (playlistId apiKey : string) (cursor : option string)
    (pages : list PlaylistResponse) : list Exchange :=
  match pages with
  | [] => []
  | page :: pages' =>
      PlaylistItemsCall (pageQuery playlistId apiKey cursor) (Ok page)
      :: pageCalls playlistId apiKey (pr_nextPageToken page) pages'
  end.

Section Paging.

Context {S : Type} (service : Service S).
Variables playlistId apiKey : string.

(** From the state [s], asked with [cursor], the service delivers [pages]
    one after the other, every page but the last with a cursor to the next,
    and is left in the state [s']. *)
Inductive Paged : S -> option string -> list PlaylistResponse -> S -> Prop :=
| Paged_last s cursor page s' :
    playlistItems service s (pageQuery playlistId apiKey cursor)
      = (Ok page, s') ->
    Js.truthy_opt_string (pr_nextPageToken page) = false ->
    Paged s cursor [page] s'
| Paged_next s cursor page s1 pages s' :
    playlistItems service s (pageQuery playlistId apiKey cursor)
      = (Ok page, s1) ->
    Js.truthy_opt_string (pr_nextPageToken page) = true ->
    Paged s1 (pr_nextPageToken page) pages s' ->
    Paged s cursor (page :: pages) s'.

End Paging.

(** The batches of [fetchVideoDetails]: the slices of 50 ids taken at
    0, 50, 100, ... below the length of [videoIds]. *)
Definition batchCount (videoIds : list string) : nat :=
  Z.to_nat ((Z.of_nat (List.length videoIds) + 49) / 50).

Definition batches (videoIds : list string) : list (list string) :=
  map (fun j => Js.slice videoIds (50 * Z.of_nat j) (50 * Z.of_nat j + 50))
      (seq 0 (batchCount videoIds)).

Definition videosQuery (apiKey : string) (batch : list string) : VideosQuery :=
  {| vq_part := "snippet,contentDetails";
     vq_id := Js.join "," batch;
     vq_key := apiKey |}.

(** The exchanges of the batches with the responses they got, in order:
    as many as there are responses. *)
Definition videoCalls (apiKey : string) (batches : list (list string))
    (responses : list (Fetched VideosResponse)) : list Exchange :=
  map (fun br => VideosCall (videosQuery apiKey (fst br)) (snd br))
      (combine batches responses).

Section Batching.

Context {S : Type} (service : Service S).
Variable apiKey : string.

(** From the state [s] the service answers the lookups of the batches, one
    after the other, with the responses of the list, all ok. *)
Inductive Answered : S -> list (list string) -> list VideosResponse -> S -> Prop :=
| Answered_none s : Answered s [] [] s
| Answered_batch s batch data s1 batches responses s' :
    videos service s (videosQuery apiKey batch) = (Ok data, s1) ->
    Answered s1 batches responses s' ->
    Answered s (batch :: batches) (data :: responses) s'.

End Batching.

(** ** A scripted service

    A test double of the catalog service: each endpoint answers with the
    next response of its script, whatever the query. *)
Module Mock.

Record Script := mkScript {
  pages : list (Fetched PlaylistResponse);
  details : list (Fetched VideosResponse);
  titles : list (Fetched PlaylistsData)
}.

Definition next {A : Type} (script : list (Fetched A))
  : Fetched A * list (Fetched A) :=
  match script with
  | [] => (Failed (Error "nothing scripted"), [])
  | r :: rest => (r, rest)
  end.

Definition service : Service Script :=
  {| playlistItems s _ :=
       let (r, rest) := next (pages s) in
       (r, mkScript rest (details s) (titles s));
     videos s _ :=
       let (r, rest) := next (details s) in
       (r, mkScript (pages s) rest (titles s));
     playlists s _ :=
       let (r, rest) := next (titles s) in
       (r, mkScript (pages s) (details s) rest) |}.

(** The items and the metadata of the videos numbered [from], [from + 1],
    ... : [count] of them. *)
Definition videoIdOf (k : nat) : string := "vid" ++ Js.toString (N.of_nat k).

Definition items (from count : nat) : list PlaylistItem :=
  map (fun k => mkPlaylistItem ("Video " ++ Js.toString (N.of_nat k)) (videoIdOf k))
      (seq from count).

Definition metadata (from count : nat) : list VideoItem :=
  map (fun k => mkVideoItem (videoIdOf k) "" "PT1M") (seq from count).

(** A playlist of 120 videos, delivered as pages of 50, 50 and 20. *)
Definition page1 := mkPlaylistResponse (items 1 50) (Some "CAEQAA").
Definition page2 := mkPlaylistResponse (items 51 50) (Some "CAIQAA").
Definition page3 := mkPlaylistResponse (items 101 20) None.

Definition playlist120 : Script :=
  {| pages := [Ok page1; Ok page2; Ok page3];
     details := [Ok (mkVideosResponse (metadata 1 50));
                 Ok (mkVideosResponse (metadata 51 50));
                 Ok (mkVideosResponse (metadata 101 20))];
     titles := [Ok (mkPlaylistsData (Some ["Lectures"]))] |}.

(** A playlist of three videos of 2, 3 and 5 minutes, and one of two
    videos of 100 and 101 seconds; the title lookup of the second is
    refused. *)
Definition playlist3 : Script :=
  {| pages := [Ok (mkPlaylistResponse (items 1 3) None)];
     details := [Ok (mkVideosResponse
                       [mkVideoItem (videoIdOf 3) "" "PT5M";
                        mkVideoItem (videoIdOf 1) "" "PT2M";
                        mkVideoItem (videoIdOf 2) "" "PT3M"])];
     titles := [Ok (mkPlaylistsData (Some ["Three"]))] |}.

Definition playlist2 : Script :=
  {| pages := [Ok (mkPlaylistResponse (items 1 2) None)];
     details := [Ok (mkVideosResponse
                       [mkVideoItem (videoIdOf 1) "" "PT1M40S";
                        mkVideoItem (videoIdOf 2) "" "PT1M41S"])];
     titles := [NotOk (inr (Some "quotaExceeded"))] |}.

Definition url : string := "https://www.youtube.com/playlist?list=PLx0_a-9".

Definition wholePlaylist : RequestBody :=
  {| playlistUrl := url; startVideo := 1; endVideo := -1;
     completePlaylist := true |}.

Definition range (startVideo endVideo : Z) : RequestBody :=
  {| playlistUrl := url; startVideo := startVideo; endVideo := endVideo;
     completePlaylist := false |}.

End Mock.

(** ** More of the catalog client, in closed form *)

Section Turning.

Context {S : Type} (service : Service S).
Variables playlistId apiKey : string.

(** From the state [s], asked with [cursor], the service delivers
    [pages], every one of them with a cursor to the next, and is left in the
    state [s'] with the cursor [cursor'] of the last page to be asked next. *)
Inductive Turned : S -> option string -> list PlaylistResponse -> S ->
                   option string -> Prop :=
| Turned_none s cursor : Turned s cursor [] s cursor
| Turned_page s cursor page s1 pages s' cursor' :
    playlistItems service s (pageQuery playlistId apiKey cursor)
      = (Ok page, s1) ->
    Js.truthy_opt_string (pr_nextPageToken page) = true ->
    Turned s1 (pr_nextPageToken page) pages s' cursor' ->
    Turned s cursor (page :: pages) s' cursor'.

End Turning.

(** What the catalog client throws on a response that is not read as data:
    the rejection itself, the failure to read the error body, or an [Error]
    with the message of the service and, without one, the message of the
    client. *)
Definition thrownFor {A : Type} (r : Fetched A) (fallback : string)
  : option Thrown :=
  match r with
  | Failed e => Some e
  | NotOk (inl e) => Some e
  | NotOk (inr message) => Some (Error (Js.or_else message fallback))
  | Ok _ => None
  end.

(** The message of the 500 response for a thrown value, lines 219-224. *)
Definition messageOf (error : Thrown) : string :=
  match error with
  | Error message => message
  | NotAnError => "An unexpected error occurred"
  end.

(** A character that is not the ['P'] of the period designator. *)
Definition not_P (c : ascii) : bool := negb (Ascii.eqb c "P").

(** ** The page ([src/app/page.tsx])

    The three helpers of the component that turn seconds into text.  Their
    argument is a number that holds an integer: [totalDuration],
    [averageDuration], [durationSeconds] and the result of [Math.round].
    [%] is the remainder that has the sign of the dividend.  The quotients
    and the digits are exact here; they are the ones of the program for
    seconds up to [MAX_SAFE_INTEGER]. *)
Module Page.

(** The text of an integer in a template literal. *)
Definition numberToString (n : Z) : string :=
  if n <? 0 then "-" ++ Js.toString (Z.to_N (- n)) else Js.toString (Z.to_N n).

Definition formatDuration (seconds : Z) : string :=
  let hours := seconds / 3600 in
  let minutes := Z.rem seconds 3600 / 60 in
  let secs := Z.rem seconds 60 in
  if hours >? 0 then
    numberToString hours ++ " hr" ++ (if negb (hours =? 1) then "s" else "")
    ++ " " ++ numberToString minutes ++ " min"
    ++ (if negb (minutes =? 1) then "s" else "")
  else if minutes >? 0 then
    numberToString minutes ++ " min"
    ++ (if negb (minutes =? 1) then "s" else "") ++ " "
    ++ (if secs >? 0
        then " " ++ numberToString secs ++ " sec"
             ++ (if negb (secs =? 1) then "s" else "")
        else "")
  else
    numberToString secs ++ " sec" ++ (if negb (secs =? 1) then "s" else "").

Definition formatDurationDetailed (seconds : Z) : string :=
  let hours := seconds / 3600 in
  let minutes := Z.rem seconds 3600 / 60 in
  let remainingSeconds := Z.rem seconds 60 in
  if hours >? 0 then
    numberToString hours ++ " hr" ++ (if negb (hours =? 1) then "s" else "")
    ++ " " ++ numberToString minutes ++ " min"
    ++ (if negb (minutes =? 1) then "s" else "")
  else
    numberToString minutes ++ " min"
    ++ (if negb (minutes =? 1) then "s" else "") ++ " "
    ++ numberToString remainingSeconds ++ " sec"
    ++ (if negb (remainingSeconds =? 1) then "s" else "").

(** [Math.round(totalSeconds / speed)], the first line of
    [calculatePlaybackTime]; the speed is a rational.  The component calls
    it with the speeds of [playbackSpeeds], none of which is 0.  The
    quotient is rounded from its exact value, as the program does for the
    speeds of [playbackSpeeds] when the total is below 2^50. *)
Definition adjustedSeconds (totalSeconds : Z) (speed : Q) : Z :=
  Js.Math_round (inject_Z totalSeconds / speed).

Definition calculatePlaybackTime (totalSeconds : Z) (speed : Q) : string :=
  formatDuration (adjustedSeconds totalSeconds speed).

(** [[1.0, 1.25, 1.5, 1.75, 2.0]]. *)
Definition playbackSpeeds : list Q := [1; 5 # 4; 3 # 2; 7 # 4; 2]%Q.

End Page.

(** ** More scripts for the scripted service *)
Module Scenario.

(** Two pages, then a refusal of the third request. *)
Definition quotaAfterTwoPages : Mock.Script :=
  {| Mock.pages := [Ok Mock.page1; Ok Mock.page2;
                    NotOk (inr (Some "quotaExceeded"))];
     Mock.details := [];
     Mock.titles := [] |}.

(** A playlist of 120 videos of which the second details lookup is
    refused without a message. *)
Definition detailsRefused : Mock.Script :=
  {| Mock.pages := [Ok Mock.page1; Ok Mock.page2; Ok Mock.page3];
     Mock.details := [Ok (mkVideosResponse (Mock.metadata 1 50));
                      NotOk (inr None);
                      Ok (mkVideosResponse (Mock.metadata 101 20))];
     Mock.titles := [Ok (mkPlaylistsData (Some ["Lectures"]))] |}.

(** A service that answers every page request with the same page and a
    cursor. *)
Definition endless : Service unit :=
  {| playlistItems _ _ :=
       (Ok (mkPlaylistResponse (Mock.items 1 1) (Some "again")), tt);
     videos _ _ := (Failed NotAnError, tt);
     playlists _ _ := (Failed NotAnError, tt) |}.

End Scenario.

(** ** The range of exact arithmetic, and two readings of strings *)

(** [Number.MAX_SAFE_INTEGER]: up to it every integer is a binary64 number,
    and a sum or a product of integers that stays within it is exact. *)
Definition MAX_SAFE_INTEGER : Z := 2 ^ 53 - 1.




(** How the [id] parameter of a details lookup is read: the strings between
    the commas, as [split(',')] gives them. *)
Fixpoint split_on (sep : ascii) (s : string) : list string :=
  match s with
  | EmptyString => [EmptyString]
  | String c s' =>
      if Ascii.eqb c sep then EmptyString :: split_on sep s'
      else
        match split_on sep s' with
        | [] => [String c EmptyString]
        | word :: words => String c word :: words
        end
  end.

Definition not_comma (c : ascii) : bool := negb (Ascii.eqb c ",").

(** The ids that a call carries to the service: those of the [id]
    parameter of a details lookup, none for the other calls. *)
Definition idsOf (x : Exchange) : list string :=
  match x with
  | VideosCall q _ => split_on "," (vq_id q)
  | _ => []
  end.

(** * Properties *)

Example parseDuration_full : parseDuration "PT1H2M3S" = 3723.
Proof. reflexivity. Qed.
Example parseDuration_embedded : parseDuration "xPT5Sy" = 5.
Proof. reflexivity. Qed.
Example parseDuration_days : parseDuration "P1DT2H" = 0.
Proof. reflexivity. Qed.
Example parseDuration_order : parseDuration "PT5M3H" = 300.
Proof. reflexivity. Qed.
Example extract_long :
  extractPlaylistId "https://www.youtube.com/playlist?list=PL_a-1&x=2" = Some "PL_a-1".
Proof. reflexivity. Qed.
Example extract_short :
  extractPlaylistId "https://youtu.be/playlist?list=PLabc" = Some "PLabc".
Proof. reflexivity. Qed.
Example extract_watch :
  extractPlaylistId "https://www.youtube.com/watch?v=1&list=PLabc" = None.
Proof. reflexivity. Qed.


(** ** Strings and the two regular expressions *)

Section StringFacts.

Variable cls : ascii -> bool.

Lemma append_nil_r (s : string) : s ++ "" = s.
Proof. induction s as [|c s IH]; simpl; [reflexivity | now rewrite IH]. Qed.

Lemma append_assoc (a b c : string) : (a ++ b) ++ c = a ++ b ++ c.
Proof. induction a as [|x a IH]; simpl; [reflexivity | now rewrite IH]. Qed.

Lemma strip_prefix_spec (lit s r : string) :
  Js.strip_prefix lit s = Some r <-> s = lit ++ r.
Proof.
  revert s; induction lit as [|a lit IH]; intros s; simpl.
  - split; [now intros [= ->] | now intros ->].
  - destruct s as [|b s]; [split; discriminate|].
    destruct (Ascii.eqb_spec a b) as [->|Hab].
    + rewrite IH. split; [now intros -> | now intros [= ->]].
    + split; [discriminate | intros [= <- _]; now elim Hab].
Qed.

Lemma strip_prefix_app (lit r : string) : Js.strip_prefix lit (lit ++ r) = Some r.
Proof. now apply strip_prefix_spec. Qed.

Lemma span_spec (s : string) :
  s = fst (Js.span cls s) ++ snd (Js.span cls s)
  /\ Js.all cls (fst (Js.span cls s)) = true
  /\ Js.head_in cls (snd (Js.span cls s)) = false.
Proof.
  induction s as [|c s (IH1 & IH2 & IH3)]; simpl; [auto|].
  destruct (cls c) eqn:Hc; simpl.
  - destruct (Js.span cls s) as [run rest]; simpl in *.
    rewrite Hc, IH2. repeat split; auto. now f_equal.
  - now rewrite Hc.
Qed.

Lemma span_app (run rest : string) :
  Js.all cls run = true -> Js.head_in cls rest = false ->
  Js.span cls (run ++ rest) = (run, rest).
Proof.
  induction run as [|c run IH]; simpl; intros Hall Hrest.
  - destruct rest as [|c rest]; [reflexivity|]. simpl in *. now rewrite Hrest.
  - apply andb_prop in Hall as [Hc Hall]. now rewrite Hc, IH.
Qed.

End StringFacts.

Section SearchFacts.

Context {A : Type} (match_here : string -> option A).

Lemma search_none (s : string) :
  Js.search match_here s = None <->
  forall pre suf, s = pre ++ suf -> match_here suf = None.
Proof.
  induction s as [|c s IH]; simpl.
  - destruct (match_here "") eqn:E.
    + split; [discriminate|]. intros H. rewrite <- E. now apply (H "" "").
    + split; [|reflexivity]. intros _ pre suf Heq.
      destruct pre; [|discriminate]. simpl in Heq. now subst.
  - destruct (match_here (String c s)) eqn:E.
    + split; [discriminate|]. intros H. rewrite <- E. now apply (H "" (String c s)).
    + rewrite IH. split; intros H pre suf Heq.
      * destruct pre as [|x pre]; simpl in Heq; [now subst|].
        injection Heq as -> ->. now apply (H pre).
      * apply (H (String c pre)). simpl. now f_equal.
Qed.

Lemma search_first (pre suf : string) (r : A) :
  match_here suf = Some r ->
  (forall a b, pre = a ++ b -> b <> "" -> match_here (b ++ suf) = None) ->
  Js.search match_here (pre ++ suf) = Some r.
Proof.
  induction pre as [|c pre IH]; intros Hhere Hfirst.
  - simpl. destruct suf; simpl; now rewrite Hhere.
  - pose proof (Hfirst "" (String c pre) eq_refl ltac:(discriminate)) as H0.
    simpl in *. rewrite H0.
    apply IH; [assumption|]. intros a b -> Hb.
    apply (Hfirst (String c a) b); [reflexivity|assumption].
Qed.

Lemma search_some (s : string) (r : A) :
  Js.search match_here s = Some r ->
  exists pre suf,
    s = pre ++ suf /\ match_here suf = Some r
    /\ forall a b, pre = a ++ b -> b <> "" -> match_here (b ++ suf) = None.
Proof.
  induction s as [|c s IH]; simpl.
  - destruct (match_here "") eqn:E; [|discriminate].
    intros [= ->]. exists "", "". repeat split; auto.
    intros [|x a] b Hab Hb; simpl in Hab; [now subst b | discriminate].
  - destruct (match_here (String c s)) eqn:E.
    + intros [= ->]. exists "", (String c s). repeat split; auto.
      intros [|x a] b Hab Hb; simpl in Hab; [now subst b | discriminate].
    + intros H. destruct (IH H) as (pre & suf & -> & Hm & Hfirst).
      exists (String c pre), suf. repeat split; auto.
      intros [|x a] b Hab Hb; simpl in Hab.
      * subst b. exact E.
      * injection Hab as -> ->. now apply (Hfirst a b).
Qed.

End SearchFacts.

(** ** extractPlaylistId *)

Lemma capture_id_some (s id : string) :
  capture_id s = Some id <->
  id <> "" /\ Js.all Js.is_id_char id = true
  /\ exists rest, s = id ++ rest /\ Js.head_in Js.is_id_char rest = false.
Proof.
  unfold capture_id. split.
  - destruct (span_spec Js.is_id_char s) as (Hs & Hall & Hrest).
    destruct (Js.span Js.is_id_char s) as [run rest]; simpl in *.
    destruct run as [|c run]; [discriminate|]. intros [= <-].
    repeat split; [discriminate | assumption | now exists rest].
  - intros (Hne & Hall & rest & -> & Hrest).
    rewrite span_app by assumption. destruct id; [now elim Hne | reflexivity].
Qed.

Lemma capture_id_none (s : string) :
  capture_id s = None <-> Js.head_in Js.is_id_char s = false.
Proof.
  unfold capture_id. destruct s as [|c s]; simpl; [tauto|].
  destruct (Js.is_id_char c); [|tauto].
  destruct (Js.span Js.is_id_char s). split; discriminate.
Qed.

Lemma long_is_not_short (r r' : string) : host_long ++ r <> host_short ++ r'.
Proof. discriminate. Qed.

Lemma playlist_id_here_some (s id : string) :
  playlist_id_here s = Some id <->
  exists host rest,
    (host = host_long \/ host = host_short)
    /\ s = host ++ id ++ rest
    /\ id <> "" /\ Js.all Js.is_id_char id = true
    /\ Js.head_in Js.is_id_char rest = false.
Proof.
  unfold playlist_id_here. split.
  - destruct (Js.strip_prefix host_long s) as [r|] eqn:El.
    + apply strip_prefix_spec in El. subst s.
      destruct (capture_id r) as [id'|] eqn:Ec.
      * intros [= ->]. apply capture_id_some in Ec as (Hne & Hall & rest & -> & Hr).
        exists host_long, rest. auto.
      * destruct (Js.strip_prefix host_short (host_long ++ r)) as [r'|] eqn:Es;
          [|discriminate].
        apply strip_prefix_spec in Es. now apply long_is_not_short in Es.
    + destruct (Js.strip_prefix host_short s) as [r|] eqn:Es; [|discriminate].
      apply strip_prefix_spec in Es. subst s. intros Ec.
      apply capture_id_some in Ec as (Hne & Hall & rest & -> & Hr).
      exists host_short, rest. auto.
  - intros (host & rest & [-> | ->] & -> & Hne & Hall & Hr).
    + rewrite strip_prefix_app.
      assert (capture_id (id ++ rest) = Some id) as ->; [|reflexivity].
      apply capture_id_some. eauto.
    + assert (Js.strip_prefix host_long (host_short ++ id ++ rest) = None) as ->
        by reflexivity.
      rewrite strip_prefix_app. apply capture_id_some. eauto.
Qed.

Lemma playlist_id_here_none (s : string) :
  playlist_id_here s = None <-> ~ recognized_here s.
Proof.
  split.
  - intros Hnone (host & c & rest & Hhost & Hc & ->).
    destruct (span_spec Js.is_id_char rest) as (Hs & Hall & Hrest).
    assert (playlist_id_here
              (host ++ String c (fst (Js.span Js.is_id_char rest))
                    ++ snd (Js.span Js.is_id_char rest))
            = Some (String c (fst (Js.span Js.is_id_char rest)))) as E.
    { apply playlist_id_here_some. exists host, (snd (Js.span Js.is_id_char rest)).
      repeat split; auto; [discriminate | simpl; now rewrite Hc, Hall]. }
    simpl in E. rewrite <- Hs in E. congruence.
  - intros Hnot. destruct (playlist_id_here s) as [id|] eqn:E; [|reflexivity].
    elim Hnot. apply playlist_id_here_some in E
      as (host & rest & Hhost & -> & Hne & Hall & _).
    destruct id as [|c id]; [now elim Hne|].
    exists host, c, (id ++ rest). simpl in Hall.
    apply andb_prop in Hall as [Hc _]. auto.
Qed.

(** C9.  [extractPlaylistId] returns the identifier captured at the first
    place of the URL where one of the two host patterns, with its [list=],
    is followed by a character of [[A-Za-z0-9_-]]: the longest run of such
    characters there, and nothing else.  In particular it returns the
    identifier of the two usual forms of a playlist URL.  It returns
    not-found exactly when no place of the URL carries such a token, so for
    every URL without [list=]. *)
Theorem extractPlaylistId_correct :
  (forall url id,
     extractPlaylistId url = Some id ->
     exists pre host rest,
       url = pre ++ host ++ id ++ rest
       /\ (host = host_long \/ host = host_short)
       /\ id <> "" /\ Js.all Js.is_id_char id = true
       /\ Js.head_in Js.is_id_char rest = false
       /\ forall a b, pre = a ++ b -> b <> "" ->
                      ~ recognized_here (b ++ host ++ id ++ rest))
  /\ (forall pre host id rest,
        host = host_long \/ host = host_short ->
        id <> "" -> Js.all Js.is_id_char id = true ->
        Js.head_in Js.is_id_char rest = false ->
        (forall a b, pre = a ++ b -> b <> "" ->
                     ~ recognized_here (b ++ host ++ id ++ rest)) ->
        extractPlaylistId (pre ++ host ++ id ++ rest) = Some id)
  /\ (forall id rest,
        id <> "" -> Js.all Js.is_id_char id = true ->
        Js.head_in Js.is_id_char rest = false ->
        extractPlaylistId ("https://www.youtube.com/playlist?list=" ++ id ++ rest)
          = Some id
        /\ extractPlaylistId ("https://youtu.be/playlist?list=" ++ id ++ rest)
          = Some id)
  /\ (forall url,
        extractPlaylistId url = None <->
        forall pre suf, url = pre ++ suf -> ~ recognized_here suf)
  /\ (forall url,
        ~ (exists pre post, url = pre ++ "list=" ++ post) ->
        extractPlaylistId url = None).
Proof.
  assert (Hfound : forall pre host id rest,
    host = host_long \/ host = host_short ->
    id <> "" -> Js.all Js.is_id_char id = true ->
    Js.head_in Js.is_id_char rest = false ->
    (forall a b, pre = a ++ b -> b <> "" ->
                 ~ recognized_here (b ++ host ++ id ++ rest)) ->
    extractPlaylistId (pre ++ host ++ id ++ rest) = Some id).
  { intros pre host id rest Hhost Hne Hall Hrest Hfirst.
    apply search_first.
    - apply playlist_id_here_some. exists host, rest. auto.
    - intros a b Hab Hb. apply playlist_id_here_none. now apply (Hfirst a b). }
  assert (Hnone : forall url,
    extractPlaylistId url = None <->
    forall pre suf, url = pre ++ suf -> ~ recognized_here suf).
  { intros url. unfold extractPlaylistId. rewrite search_none.
    split; intros H pre suf Heq; apply playlist_id_here_none; eauto. }
  split; [|split; [exact Hfound|split; [|split; [exact Hnone|]]]].
  - intros url id H. apply search_some in H as (pre & suf & -> & Hm & Hfirst).
    apply playlist_id_here_some in Hm as (host & rest & Hhost & -> & Hne & Hall & Hr).
    exists pre, host, rest. repeat split; auto.
    intros a b Hab Hb. apply playlist_id_here_none. now apply (Hfirst a b).
  - intros id rest Hne Hall Hrest. split.
    + apply (Hfound "https://www." host_long id rest); auto.
      intros a b Hab Hb (host & c & r & Hhost & _ & Heq).
      do 12 (destruct a as [|? a]; simpl in Hab;
             [subst b; destruct Hhost; subst host; discriminate
             | injection Hab as <- Hab]).
      destruct a; simpl in Hab; [now subst b | discriminate].
    + apply (Hfound "https://" host_short id rest); auto.
      intros a b Hab Hb (host & c & r & Hhost & _ & Heq).
      do 8 (destruct a as [|? a]; simpl in Hab;
            [subst b; destruct Hhost; subst host; discriminate
            | injection Hab as <- Hab]).
      destruct a; simpl in Hab; [now subst b | discriminate].
  - intros url Hno. apply Hnone. intros pre suf -> (host & c & rest & Hhost & _ & ->).
    apply Hno. destruct Hhost as [-> | ->].
    + exists (pre ++ "youtube.com/playlist?"), (String c rest).
      now rewrite append_assoc.
    + exists (pre ++ "youtu.be/playlist?"), (String c rest).
      now rewrite append_assoc.
Qed.

(** ** parseDuration *)

Lemma digits_of_uint (d : Decimal.uint) :
  Js.all Js.is_digit (NilEmpty.string_of_uint d) = true.
Proof. induction d; simpl; auto. Qed.

Lemma parse_digits_uint_acc (d : Decimal.uint) (p : positive) :
  Js.parse_digits (Zpos p) (NilEmpty.string_of_uint d)
  = Zpos (Pos.of_uint_acc d p).
Proof.
  revert p; induction d; intros p; [reflexivity|..];
    cbn [NilEmpty.string_of_uint Js.parse_digits Pos.of_uint_acc];
    change (Js.is_digit _) with true; cbv iota;
    rewrite <- IHd; f_equal;
    match goal with |- context [Js.digit_value ?c] =>
      let v := eval vm_compute in (Js.digit_value c) in
      change (Js.digit_value c) with v
    end;
    rewrite ?Pos2Z.inj_add, ?Pos2Z.inj_mul; lia.
Qed.

Lemma parse_digits_uint (d : Decimal.uint) :
  Js.parse_digits 0 (NilEmpty.string_of_uint d) = Z.of_N (Pos.of_uint d).
Proof.
  induction d; [reflexivity | exact IHd |..];
    cbn [NilEmpty.string_of_uint Js.parse_digits Pos.of_uint];
    change (Js.is_digit _) with true; cbv iota;
    apply parse_digits_uint_acc.
Qed.

Lemma parseInt10_toString (n : N) : Js.parseInt10 (Js.toString n) = Z.of_N n.
Proof.
  unfold Js.parseInt10, Js.toString. rewrite parse_digits_uint.
  f_equal. apply DecimalN.Unsigned.of_to.
Qed.

Lemma toString_digits (n : N) : Js.all Js.is_digit (Js.toString n) = true.
Proof. apply digits_of_uint. Qed.

Lemma toString_nonempty (n : N) : Js.toString n <> "".
Proof.
  unfold Js.toString. destruct n as [|p]; [discriminate|].
  simpl. pose proof (DecimalPos.Unsigned.to_uint_nonnil p) as H.
  destruct (Pos.to_uint p); [now elim H | discriminate..].
Qed.

(** A group on digits followed by a letter: it takes part in the match when
    the letter is its unit, and matches nothing otherwise. *)
Lemma duration_component_digits (unit c : ascii) (digits rest : string) :
  digits <> "" -> Js.all Js.is_digit digits = true -> Js.is_digit c = false ->
  duration_component unit (digits ++ String c rest)
  = if Ascii.eqb c unit then (Some digits, rest)
    else (None, digits ++ String c rest).
Proof.
  intros Hne Hall Hc. unfold duration_component.
  rewrite span_app by (simpl; assumption).
  destruct digits; [now elim Hne | reflexivity].
Qed.

Lemma duration_component_empty (unit : ascii) :
  duration_component unit "" = (None, "").
Proof. reflexivity. Qed.

Lemma duration_here_none (s : string) :
  duration_here s = None <-> Js.strip_prefix "PT" s = None.
Proof.
  unfold duration_here. destruct (Js.strip_prefix "PT" s) as [r0|]; [|tauto].
  destruct (duration_component "H" r0) as [h r1].
  destruct (duration_component "M" r1) as [m r2].
  destruct (duration_component "S" r2). split; discriminate.
Qed.


Lemma or_else_toString (n : N) : Js.or_else (Some (Js.toString n)) "0" = Js.toString n.
Proof.
  unfold Js.or_else. simpl. pose proof (toString_nonempty n).
  now destruct (Js.toString n).
Qed.

Lemma parseDuration_format (h m s : option N) :
  parseDuration (spec_format h m s)
  = spec_value h * 3600 + spec_value m * 60 + spec_value s.
Proof.
  unfold parseDuration, spec_format. simpl Js.search. unfold duration_here.
  simpl Js.strip_prefix.
  assert (Hpresent : forall n u rest,
            Js.is_digit u = false ->
            duration_component u (Js.toString n ++ String u rest)
            = (Some (Js.toString n), rest)).
  { intros n u rest Hu. rewrite duration_component_digits;
      auto using toString_nonempty, toString_digits.
    now rewrite Ascii.eqb_refl. }
  assert (Hother : forall n u c rest,
            Js.is_digit c = false -> Ascii.eqb c u = false ->
            duration_component u (Js.toString n ++ String c rest)
            = (None, Js.toString n ++ String c rest)).
  { intros n u c rest Hc Hcu. rewrite duration_component_digits;
      auto using toString_nonempty, toString_digits.
    now rewrite Hcu. }
  destruct h as [h|], m as [m|], s as [s|]; unfold spec_component;
    repeat rewrite append_assoc; simpl append;
    repeat first
      [ rewrite Hpresent by reflexivity
      | rewrite Hother by reflexivity
      | rewrite duration_component_empty ];
    cbn [dm_hours dm_minutes dm_seconds spec_value];
    repeat rewrite or_else_toString; repeat rewrite parseInt10_toString;
    cbn [Js.or_else Js.truthy_opt_string]; unfold Js.parseInt10; simpl Js.parse_digits;
    change (Js.digit_value "0") with 0; lia.
Qed.

Lemma parse_digits_nonneg (s : string) (acc : Z) :
  0 <= acc -> 0 <= Js.parse_digits acc s.
Proof.
  revert acc; induction s as [|c s IH]; intros acc Hacc;
    cbn [Js.parse_digits]; [assumption|].
  destruct (Js.is_digit c) eqn:Hc; [|assumption].
  apply IH. unfold Js.is_digit in Hc. apply andb_prop in Hc as [Hlo _].
  apply Nat.leb_le in Hlo. unfold Js.digit_value. lia.
Qed.

Lemma parseDuration_nonneg (d : string) : 0 <= parseDuration d.
Proof.
  unfold parseDuration. destruct (Js.search duration_here d); [|lia].
  pose proof (parse_digits_nonneg (Js.or_else (dm_hours d0) "0") 0).
  pose proof (parse_digits_nonneg (Js.or_else (dm_minutes d0) "0") 0).
  pose proof (parse_digits_nonneg (Js.or_else (dm_seconds d0) "0") 0).
  unfold Js.parseInt10. lia.
Qed.










(** ** Range selection *)

Lemma slice_inside {A : Type} (l : list A) (a b : Z) :
  0 <= a <= b -> b <= Z.of_nat (List.length l) ->
  Js.slice l a b = firstn (Z.to_nat (b - a)) (skipn (Z.to_nat a) l).
Proof.
  intros Hab Hb. unfold Js.slice, Js.relative_index.
  destruct (Z.ltb_spec a 0), (Z.ltb_spec b 0); try lia.
  now rewrite !Z.min_l by lia.
Qed.

Lemma slice_length {A : Type} (l : list A) (a b : Z) :
  0 <= a <= b -> b <= Z.of_nat (List.length l) ->
  Z.of_nat (List.length (Js.slice l a b)) = b - a.
Proof.
  intros Hab Hb. rewrite slice_inside by assumption.
  rewrite length_firstn, length_skipn. lia.
Qed.

Lemma slice_nth {A : Type} (l : list A) (a b : Z) (i : nat) :
  0 <= a <= b -> b <= Z.of_nat (List.length l) ->
  (i < Z.to_nat (b - a))%nat ->
  nth_error (Js.slice l a b) i = nth_error l (Z.to_nat a + i).
Proof.
  intros Hab Hb Hi. rewrite slice_inside by assumption.
  rewrite nth_error_firstn.
  destruct (Nat.ltb_spec i (Z.to_nat (b - a))); [|lia].
  apply nth_error_skipn.
Qed.

Lemma slice_all {A : Type} (l : list A) :
  Js.slice l 0 (Z.of_nat (List.length l)) = l.
Proof.
  rewrite slice_inside by lia. simpl.
  rewrite Z.sub_0_r, Nat2Z.id. apply firstn_all.
Qed.

Lemma selectItems_explicit (playlistItems : list PlaylistItem)
    (startVideo endVideo : Z) :
  let N := Z.of_nat (List.length playlistItems) in
  1 <= startVideo <= endVideo -> startVideo <= N ->
  selectItems false startVideo endVideo playlistItems
  = Some (Js.slice playlistItems (startVideo - 1) (Z.min endVideo N)).
Proof.
  intros N Hse HsN. unfold selectItems. fold N.
  destruct (Z.ltb_spec startVideo 1); [lia|].
  destruct (Z.ltb_spec endVideo startVideo); [lia|].
  destruct (Z.gtb_spec startVideo N); [lia|]. reflexivity.
Qed.

Lemma selectItems_invalid (playlistItems : list PlaylistItem)
    (startVideo endVideo : Z) :
  let N := Z.of_nat (List.length playlistItems) in
  startVideo < 1 \/ endVideo < startVideo \/ startVideo > N <->
  selectItems false startVideo endVideo playlistItems = None.
Proof.
  intros N. unfold selectItems. fold N.
  destruct (Z.ltb_spec startVideo 1), (Z.ltb_spec endVideo startVideo),
    (Z.gtb_spec startVideo N); simpl; split; intros Hx;
    first [reflexivity | discriminate | lia].
Qed.

Lemma selectItems_nonempty (completePlaylist : bool) (startVideo endVideo : Z)
    (playlistItems selectedItems : list PlaylistItem) :
  playlistItems <> [] ->
  selectItems completePlaylist startVideo endVideo playlistItems
    = Some selectedItems ->
  (1 <= List.length selectedItems <= List.length playlistItems)%nat.
Proof.
  intros Hne Hsel. destruct completePlaylist.
  - injection Hsel as <-. destruct playlistItems; [now elim Hne | simpl; lia].
  - destruct (selectItems false startVideo endVideo playlistItems) eqn:E;
      [|discriminate].
    set (N := Z.of_nat (List.length playlistItems)).
    assert (Hvalid : ~ (startVideo < 1 \/ endVideo < startVideo \/ startVideo > N)).
    { intros H. apply selectItems_invalid in H. fold N in H. congruence. }
    rewrite selectItems_explicit in E by (fold N; lia). fold N in E.
    injection E as <-. injection Hsel as <-.
    pose proof (slice_length playlistItems (startVideo - 1) (Z.min endVideo N)
                  ltac:(lia) ltac:(fold N; lia)). lia.
Qed.

(** C1.  With the flag of the entire playlist the selection is the whole
    membership.  With an explicit range, [1 <= start <= end] and
    [start <= N], the selection is the run of the membership from position
    [start] to position [min end N], both included and counted from 1: it has
    [min end N - start + 1] entries, the one at position [p] of the
    membership sitting at place [p - start]; an [end] beyond [N] is cut to
    [N] and not refused.  The range from 1 to [N] selects what the flag
    selects.  A request with such a range and a playlist URL passes the
    check of the required fields. *)
Theorem selectItems_correct (playlistItems : list PlaylistItem) :
  let N := Z.of_nat (List.length playlistItems) in
  (forall startVideo endVideo,
     selectItems true startVideo endVideo playlistItems = Some playlistItems)
  /\ (forall startVideo endVideo,
        1 <= startVideo <= endVideo -> startVideo <= N ->
        exists selectedItems,
          selectItems false startVideo endVideo playlistItems
            = Some selectedItems
          /\ selectedItems
             = firstn (Z.to_nat (Z.min endVideo N - startVideo + 1))
                 (skipn (Z.to_nat (startVideo - 1)) playlistItems)
          /\ Z.of_nat (List.length selectedItems)
             = Z.min endVideo N - startVideo + 1
          /\ forall p, startVideo <= p <= Z.min endVideo N ->
               nth_error selectedItems (Z.to_nat (p - startVideo))
               = nth_error playlistItems (Z.to_nat (p - 1)))
  /\ (1 <= N ->
      selectItems false 1 N playlistItems
      = selectItems true 1 N playlistItems)
  /\ (forall url startVideo endVideo,
        Js.truthy_string url = true ->
        1 <= startVideo <= endVideo ->
        missingFields (mkRequestBody url startVideo endVideo false) = false).
Proof.
  intros N. split; [reflexivity|]. split; [|split].
  - intros startVideo endVideo Hse HsN.
    rewrite selectItems_explicit by (fold N; lia). fold N.
    eexists; split; [reflexivity|].
    assert (Hlo : 0 <= startVideo - 1 <= Z.min endVideo N) by lia.
    assert (Hhi : Z.min endVideo N <= Z.of_nat (List.length playlistItems))
      by (fold N; lia).
    split; [|split].
    + rewrite slice_inside by assumption. do 2 f_equal. lia.
    + rewrite slice_length by assumption. lia.
    + intros p Hp. rewrite slice_nth by (try assumption; lia). f_equal. lia.
  - intros HN. rewrite selectItems_explicit by (fold N; lia). fold N.
    rewrite Z.min_id. unfold selectItems. f_equal. apply slice_all.
  - intros url startVideo endVideo Hurl Hse.
    unfold missingFields, Js.truthy_number. cbn. rewrite Hurl.
    destruct (Z.eqb_spec startVideo 0), (Z.eqb_spec endVideo 0);
      first [lia | reflexivity].
Qed.

(** ** The join of the selected items with their metadata *)

Section Join.

Variable videoId : string.

Let matches (v : VideoItem) : bool := String.eqb (video_id v) videoId.

Lemma find_by_id_unique (videoDetails : list VideoItem) (detail : VideoItem) :
  NoDup (map video_id videoDetails) ->
  In detail videoDetails -> video_id detail = videoId ->
  find matches videoDetails = Some detail.
Proof.
  induction videoDetails as [|v l IH]; simpl; intros Hnd Hin Hid; [easy|].
  inversion Hnd as [|? ? Hnotin Hnd']; subst.
  unfold matches at 1. destruct (String.eqb_spec (video_id v) (video_id detail)) as [E|E].
  - destruct Hin as [->|Hin]; [reflexivity|].
    elim Hnotin. rewrite E. now apply in_map.
  - destruct Hin as [->|Hin]; [now elim E|]. now apply IH.
Qed.

Lemma find_by_id_permutation (videoDetails videoDetails' : list VideoItem) :
  NoDup (map video_id videoDetails) ->
  Permutation videoDetails videoDetails' ->
  find matches videoDetails' = find matches videoDetails.
Proof.
  intros Hnd Hperm.
  assert (Hnd' : NoDup (map video_id videoDetails'))
    by (eapply Permutation_NoDup; [apply Permutation_map; eassumption | assumption]).
  destruct (find matches videoDetails) as [detail|] eqn:E.
  - apply find_some in E as [Hin Hm]. apply String.eqb_eq in Hm.
    apply find_by_id_unique; auto. eapply Permutation_in; eassumption.
  - destruct (find matches videoDetails') as [detail|] eqn:E'; [|reflexivity].
    apply find_some in E' as [Hin Hm].
    apply Permutation_sym in Hperm.
    pose proof (find_none _ _ E detail (Permutation_in _ Hperm Hin)). congruence.
Qed.

End Join.

Lemma toVideoData_missing (videoDetails : list VideoItem) (item : PlaylistItem) :
  (forall detail, In detail videoDetails -> video_id detail <> item_videoId item) ->
  find (fun v => String.eqb (video_id v) (item_videoId item)) videoDetails = None.
Proof.
  intros Hno. destruct (find _ videoDetails) as [detail|] eqn:E; [|reflexivity].
  apply find_some in E as [Hin Hm]. apply String.eqb_eq in Hm. now elim (Hno detail).
Qed.

(** C7.  The summaries are as many as the selected items and the i-th
    summary has the video id and the title of the i-th item, whatever the
    metadata and their order.  Its metadata is the first of the result set
    with the same id: the seconds are the decoded duration of that one.
    With no metadata of that id the seconds are 0 and the duration is
    ["PT0S"]; building the summary cannot fail.  When the ids of the
    result set are distinct, listing it in another order changes nothing. *)
Theorem selectedVideos_join (selectedItems : list PlaylistItem)
    (videoDetails : list VideoItem) :
  let selectedVideos := map (toVideoData videoDetails) selectedItems in
  List.length selectedVideos = List.length selectedItems
  /\ (forall i item,
        nth_error selectedItems i = Some item ->
        exists video,
          nth_error selectedVideos i = Some video
          /\ id video = item_videoId item
          /\ title video = item_title item
          /\ ((exists detail,
                 In detail videoDetails
                 /\ video_id detail = item_videoId item
                 /\ durationSeconds video = parseDuration (video_duration detail)
                 /\ duration video
                    = Js.or_else (Some (video_duration detail)) "PT0S")
              \/ ((forall detail, In detail videoDetails ->
                                  video_id detail <> item_videoId item)
                  /\ durationSeconds video = 0
                  /\ duration video = "PT0S")))
  /\ (forall item,
        (forall detail, In detail videoDetails ->
                        video_id detail <> item_videoId item) ->
        durationSeconds (toVideoData videoDetails item) = 0
        /\ duration (toVideoData videoDetails item) = "PT0S")
  /\ (forall videoDetails',
        map id (map (toVideoData videoDetails') selectedItems)
          = map item_videoId selectedItems
        /\ map title (map (toVideoData videoDetails') selectedItems)
          = map item_title selectedItems)
  /\ (forall videoDetails',
        NoDup (map video_id videoDetails) ->
        Permutation videoDetails videoDetails' ->
        map (toVideoData videoDetails') selectedItems = selectedVideos).
Proof.
  intros selectedVideos. subst selectedVideos.
  split; [apply length_map|]. split; [|split; [|split]].
  - intros i item Hi. exists (toVideoData videoDetails item).
    split; [now apply map_nth_error|]. do 2 (split; [reflexivity|]).
    unfold toVideoData; simpl.
    destruct (find _ videoDetails) as [detail|] eqn:E.
    + left. exists detail. apply find_some in E as [Hin Hm].
      apply String.eqb_eq in Hm. auto.
    + right. repeat split; auto. intros detail Hin Heq.
      pose proof (find_none _ _ E detail Hin) as Hf. simpl in Hf.
      apply String.eqb_neq in Hf. contradiction.
  - intros item Hno. unfold toVideoData; simpl.
    now rewrite (toVideoData_missing _ _ Hno).
  - intros videoDetails'. rewrite !map_map. split; reflexivity.
  - intros videoDetails' Hnd Hperm. apply map_ext. intros item.
    unfold toVideoData. now rewrite (find_by_id_permutation _ _ _ Hnd Hperm).
Qed.

(** ** The catalog client *)

Section Client.

Context {S : Type} (service : Service S).

Lemma bind_value {A B : Type} (m : M S A) (f : A -> M S B) (s s1 : S)
    (a : A) (t1 : list Exchange) :
  m s = (Value a, s1, t1) ->
  bind m f s
  = (outcome (f a s1), final_state (f a s1), (t1 ++ calls (f a s1))%list).
Proof.
  intros H. unfold bind. rewrite H.
  now destruct (f a s1) as [[o s2] t2].
Qed.

Lemma fetchPlaylistItems_run (q : PlaylistItemsQuery) (s s' : S)
    (r : Fetched PlaylistResponse) :
  playlistItems service s q = (r, s') ->
  fetchPlaylistItems service q s = (Value r, s', [PlaylistItemsCall q r]).
Proof. intros H. unfold fetchPlaylistItems. now rewrite H. Qed.

Lemma fetchAllPlaylistItems_loop_pages (playlistId apiKey : string) (s s' : S)
    (cursor : option string) (pages : list PlaylistResponse) :
  Paged service playlistId apiKey s cursor pages s' ->
  forall (budget : nat) (allItems : list PlaylistItem),
    (List.length pages <= budget)%nat ->
    fetchAllPlaylistItems_loop service budget playlistId apiKey allItems cursor s
    = (Value (allItems ++ List.concat (map pr_items pages))%list, s',
       pageCalls playlistId apiKey cursor pages).
Proof.
  induction 1 as [s cursor page s' Hresp Hend
                 |s cursor page s1 pages s' Hresp Hmore Hrest IH];
    intros budget allItems Hbudget;
    (destruct budget as [|budget]; [simpl in Hbudget; lia|]);
    cbn [fetchAllPlaylistItems_loop];
    rewrite (bind_value _ _ _ _ _ _ (fetchPlaylistItems_run _ _ _ _ Hresp)).
  - rewrite Hend. cbn. now rewrite List.app_nil_r.
  - rewrite Hmore. rewrite IH by (simpl in Hbudget; lia).
    cbn. now rewrite <- List.app_assoc.
Qed.

(** C5.  When the service delivers the pages one after the other, the
    first on a request without cursor and each next one on the cursor of
    the page before, until a page comes without cursor, then
    [fetchAllPlaylistItems] returns the items of all the pages, page after
    page and in the order of each page.  It makes one request per page and
    no other call, each for at most 50 results and with the cursor it was
    given.  Three pages of 50, 50 and 20 items give the 120 items in one
    sequence. *)
Theorem fetchAllPlaylistItems_pages (playlistId apiKey : string) (s s' : S)
    (pages : list PlaylistResponse) (budget : nat) :
  Paged service playlistId apiKey s None pages s' ->
  (List.length pages <= budget)%nat ->
  let run := fetchAllPlaylistItems service budget playlistId apiKey s in
  outcome run = Value (List.concat (map pr_items pages))
  /\ final_state run = s'
  /\ calls run = pageCalls playlistId apiKey None pages
  /\ List.length (calls run) = List.length pages
  /\ (forall x, In x (calls run) ->
        exists q r, x = PlaylistItemsCall q r
                    /\ piq_maxResults q = "50"
                    /\ piq_playlistId q = playlistId)
  /\ (forall p1 p2 p3,
        pages = [p1; p2; p3] ->
        List.length (pr_items p1) = 50%nat ->
        List.length (pr_items p2) = 50%nat ->
        List.length (pr_items p3) = 20%nat ->
        outcome run = Value (pr_items p1 ++ pr_items p2 ++ pr_items p3)%list
        /\ List.length (pr_items p1 ++ pr_items p2 ++ pr_items p3)%list
           = 120%nat).
Proof.
  intros Hpaged Hbudget run.
  assert (Hrun : run = (Value (List.concat (map pr_items pages)), s',
                        pageCalls playlistId apiKey None pages)).
  { subst run. unfold fetchAllPlaylistItems.
    now rewrite (fetchAllPlaylistItems_loop_pages _ _ _ _ _ _ Hpaged). }
  rewrite Hrun. cbn [outcome final_state calls fst snd].
  assert (Hcalls : forall cursor x,
            In x (pageCalls playlistId apiKey cursor pages) ->
            exists q r, x = PlaylistItemsCall q r
                        /\ piq_maxResults q = "50"
                        /\ piq_playlistId q = playlistId).
  { clear. induction pages as [|page rest IH]; intros cursor x; simpl; [easy|].
    intros [<- | Hin]; [|now apply (IH _ _ Hin)].
    now exists (pageQuery playlistId apiKey cursor), (Ok page). }
  assert (Hlen : forall cursor,
            List.length (pageCalls playlistId apiKey cursor pages)
            = List.length pages).
  { clear. induction pages as [|page rest IH]; intros cursor; simpl;
      [reflexivity | now rewrite IH]. }
  repeat split; auto.
  - apply Hcalls.
  - subst pages. simpl. now rewrite List.app_nil_r.
  - rewrite !length_app. lia.
Qed.

End Client.

(** ** The batches of the details lookup *)

Lemma slice_nonneg {A : Type} (l : list A) (a b : Z) :
  0 <= a <= b ->
  Js.slice l a b = firstn (Z.to_nat (b - a)) (skipn (Z.to_nat a) l).
Proof.
  intros Hab. unfold Js.slice, Js.relative_index.
  destruct (Z.ltb_spec a 0), (Z.ltb_spec b 0); try lia.
  set (n := Z.of_nat (List.length l)).
  destruct (Z.le_gt_cases n a) as [Hna | Hna].
  - rewrite (skipn_all2 l (n := Z.to_nat a)) by lia.
    rewrite (skipn_all2 l (n := Z.to_nat (Z.min a n))) by lia.
    now rewrite !firstn_nil.
  - rewrite (Z.min_l a n) by lia.
    destruct (Z.le_gt_cases b n) as [Hbn | Hbn].
    + now rewrite Z.min_l by lia.
    + rewrite Z.min_r by lia.
      rewrite !firstn_all2; try reflexivity; rewrite length_skipn; lia.
Qed.

Section Batches.

Variable videoIds : list string.

Let batch (j : nat) : list string :=
  Js.slice videoIds (50 * Z.of_nat j) (50 * Z.of_nat j + 50).

Lemma batch_window (j : nat) : batch j = firstn 50 (skipn (50 * j) videoIds).
Proof.
  unfold batch. rewrite slice_nonneg by lia. f_equal; [lia|]. f_equal. lia.
Qed.

Lemma batchCount_spec :
  (50 * (batchCount videoIds - 1) < List.length videoIds
   /\ List.length videoIds <= 50 * batchCount videoIds)%nat
  \/ (videoIds = [] /\ batchCount videoIds = 0%nat).
Proof.
  unfold batchCount. destruct videoIds as [|x l] eqn:E; [right; auto|left].
  remember (List.length (x :: l)) as m eqn:Hm.
  assert (0 < m)%nat by (subst m; simpl; lia). clear Hm.
  zify. Z.div_mod_to_equations. lia.
Qed.

Lemma batchCount_index (j : nat) :
  (50 * Z.of_nat j <? Z.of_nat (List.length videoIds)) = true
  <-> (j < batchCount videoIds)%nat.
Proof.
  rewrite Z.ltb_lt. destruct batchCount_spec as [[Hlo Hhi] | [E Hc]].
  - split; intros; lia.
  - rewrite Hc, E. cbn [List.length]. split; intros; lia.
Qed.

Lemma batchCount_le_length : (batchCount videoIds <= List.length videoIds)%nat.
Proof. destruct batchCount_spec as [[Hlo Hhi] | [E Hc]]; lia. Qed.

Lemma batches_from (k j : nat) :
  (j + k = batchCount videoIds)%nat ->
  List.concat (map batch (seq j k)) = skipn (50 * j) videoIds.
Proof.
  revert j; induction k as [|k IH]; intros j Hjk; simpl.
  - symmetry. apply skipn_all2.
    destruct batchCount_spec as [[Hlo Hhi] | [E Hc]]; [lia | rewrite E; simpl; lia].
  - rewrite IH by lia. rewrite batch_window.
    replace (50 * Datatypes.S j)%nat with (50 + 50 * j)%nat by lia.
    rewrite <- skipn_skipn. apply firstn_skipn.
Qed.

Lemma batches_concat : List.concat (batches videoIds) = videoIds.
Proof. unfold batches. now rewrite (batches_from _ 0). Qed.

Lemma batch_length (j : nat) :
  List.length (batch j) = Nat.min 50 (List.length videoIds - 50 * j).
Proof. now rewrite batch_window, length_firstn, length_skipn. Qed.

Lemma batches_bounded :
  Forall (fun b => (1 <= List.length b <= 50)%nat) (batches videoIds).
Proof.
  unfold batches. apply Forall_forall. intros b Hb.
  apply in_map_iff in Hb as (j & <- & Hj). apply in_seq in Hj.
  fold (batch j). rewrite batch_length.
  destruct batchCount_spec as [[Hlo Hhi] | [E Hc]]; lia.
Qed.

End Batches.

Section Details.

Context {S : Type} (service : Service S).
Variables (videoIds : list string) (apiKey : string).

Let batch (j : nat) : list string :=
  Js.slice videoIds (50 * Z.of_nat j) (50 * Z.of_nat j + 50).

Lemma fetchVideos_run (q : VideosQuery) (s : S) :
  fetchVideos service q s
  = (Value (fst (videos service s q)), snd (videos service s q),
     [VideosCall q (fst (videos service s q))]).
Proof. unfold fetchVideos. now destruct (videos service s q). Qed.

Lemma fetchVideoDetails_loop_step (steps j : nat) (allVideos : list VideoItem) :
  (j < batchCount videoIds)%nat ->
  fetchVideoDetails_loop service (Datatypes.S steps) videoIds apiKey
    (50 * Z.of_nat j) allVideos
  = (response <- fetchVideos service (videosQuery apiKey (batch j)) ;;
     match response with
     | Failed e => throw e
     | NotOk errorData => rejectNotOk errorData "Failed to fetch video details"
     | Ok data =>
         fetchVideoDetails_loop service steps videoIds apiKey
           (50 * Z.of_nat (Datatypes.S j)) (allVideos ++ vr_items data)%list
     end).
Proof.
  intros Hj. cbn [fetchVideoDetails_loop].
  apply batchCount_index in Hj. rewrite Hj.
  replace (50 * Z.of_nat (Datatypes.S j)) with (50 * Z.of_nat j + 50) by lia.
  reflexivity.
Qed.

Lemma fetchVideoDetails_loop_done (steps j : nat) (allVideos : list VideoItem) :
  (batchCount videoIds <= j)%nat ->
  fetchVideoDetails_loop service steps videoIds apiKey (50 * Z.of_nat j) allVideos
  = ret allVideos.
Proof.
  intros Hj.
  assert ((50 * Z.of_nat j <? Z.of_nat (List.length videoIds)) = false) as E.
  { destruct (50 * Z.of_nat j <? Z.of_nat (List.length videoIds)) eqn:E;
      [|reflexivity]. apply batchCount_index in E. lia. }
  destruct steps; cbn [fetchVideoDetails_loop]; now rewrite E.
Qed.

(** When every batch is answered, the loop returns the items of the
    responses, in the order of the batches. *)
Lemma fetchVideoDetails_loop_answered (k : nat) :
  forall (j steps : nat) (allVideos : list VideoItem) (s s' : S)
         (responses : list VideosResponse),
    (j + k = batchCount videoIds)%nat -> (k <= steps)%nat ->
    Answered service apiKey s (map batch (seq j k)) responses s' ->
    fetchVideoDetails_loop service steps videoIds apiKey (50 * Z.of_nat j)
      allVideos s
    = (Value (allVideos ++ List.concat (map vr_items responses))%list, s',
       videoCalls apiKey (map batch (seq j k)) (map Ok responses)).
Proof.
  induction k as [|k IH]; intros j steps allVideos s s' responses Hjk Hsteps Hans.
  - rewrite fetchVideoDetails_loop_done by lia.
    inversion Hans; subst. cbn. now rewrite List.app_nil_r.
  - destruct steps as [|steps]; [lia|].
    rewrite fetchVideoDetails_loop_step by lia.
    simpl in Hans. inversion Hans as [|? ? data s1 ? rest ? Hresp Hrest]; subst.
    unfold bind. rewrite fetchVideos_run, Hresp. cbn [fst snd].
    rewrite (IH (Datatypes.S j) steps _ s1 s' rest) by (try lia; assumption).
    cbn. now rewrite <- List.app_assoc.
Qed.

(** Whatever the service answers, the loop ends, and the calls it has made
    are the lookups of the first batches, one call per batch. *)
Lemma fetchVideoDetails_loop_calls (k : nat) :
  forall (j steps : nat) (allVideos : list VideoItem) (s : S),
    (j + k = batchCount videoIds)%nat -> (k <= steps)%nat ->
    let run := fetchVideoDetails_loop service steps videoIds apiKey
                 (50 * Z.of_nat j) allVideos s in
    exists responses,
      calls run = videoCalls apiKey (map batch (seq j k)) responses
      /\ (List.length responses <= k)%nat
      /\ outcome run <> Diverge
      /\ (forall a, outcome run = Value a -> List.length responses = k).
Proof.
  induction k as [|k IH]; intros j steps allVideos s Hjk Hsteps run; subst run.
  - rewrite fetchVideoDetails_loop_done by lia.
    exists []. cbn. repeat split; auto. discriminate.
  - destruct steps as [|steps]; [lia|].
    rewrite fetchVideoDetails_loop_step by lia.
    unfold bind. rewrite fetchVideos_run.
    destruct (videos service s (videosQuery apiKey (batch j))) as [r s1].
    cbn [fst snd]. destruct r as [e | errorData | data].
    + exists [Failed e]. cbn. rewrite combine_nil.
      repeat split; auto; try lia; easy.
    + exists [NotOk errorData]. destruct errorData; cbn; rewrite combine_nil;
        repeat split; auto; try lia; easy.
    + destruct (IH (Datatypes.S j) steps (allVideos ++ vr_items data)%list s1
                  ltac:(lia) ltac:(lia)) as (responses & Hcalls & Hlen & Hnd & Hval).
      destruct (fetchVideoDetails_loop service steps videoIds apiKey
                  (50 * Z.of_nat (Datatypes.S j))
                  (allVideos ++ vr_items data)%list s1) as [[o s2] t2].
      cbn [outcome calls fst snd] in *.
      exists (Ok data :: responses). subst t2. cbn.
      repeat split; auto; [lia|]. intros a Ha. f_equal. now apply (Hval a).
Qed.

End Details.

Lemma videoCalls_length (apiKey : string) (bs : list (list string))
    (responses : list (Fetched VideosResponse)) :
  List.length (videoCalls apiKey bs responses)
  = Nat.min (List.length bs) (List.length responses).
Proof. unfold videoCalls. now rewrite length_map, length_combine. Qed.

Lemma batches_length (videoIds : list string) :
  List.length (batches videoIds) = batchCount videoIds.
Proof. unfold batches. now rewrite length_map, length_seq. Qed.

Lemma Answered_length {S : Type} (service : Service S) (apiKey : string)
    (s s' : S) (bs : list (list string)) (responses : list VideosResponse) :
  Answered service apiKey s bs responses s' ->
  List.length responses = List.length bs.
Proof. induction 1; simpl; congruence. Qed.

(** The [id] parameter, read back: [join] puts a comma between the ids and
    nothing else, so that ids without a comma are found again as they
    were. *)
Lemma split_on_free (w : string) :
  Js.all not_comma w = true -> split_on "," w = [w].
Proof.
  induction w as [|c w IH]; [reflexivity|]. cbn [Js.all split_on].
  intros H. apply andb_prop in H as [Hc Hw]. unfold not_comma in Hc.
  apply negb_true_iff in Hc. rewrite Hc, (IH Hw). reflexivity.
Qed.

Lemma split_on_app (w rest : string) :
  Js.all not_comma w = true ->
  split_on "," (w ++ String "," rest) = w :: split_on "," rest.
Proof.
  induction w as [|c w IH]; [reflexivity|]. cbn [Js.all append split_on].
  intros H. apply andb_prop in H as [Hc Hw]. unfold not_comma in Hc.
  apply negb_true_iff in Hc. rewrite Hc, (IH Hw). reflexivity.
Qed.

Lemma split_join (ids : list string) :
  ids <> [] -> forallb (Js.all not_comma) ids = true ->
  split_on "," (Js.join "," ids) = ids.
Proof.
  induction ids as [|id ids IH]; [congruence|]. intros _ Hfree.
  cbn [forallb] in Hfree. apply andb_prop in Hfree as [Hid Hids].
  destruct ids as [|id' ids]; [now apply split_on_free|].
  change (Js.join "," (id :: id' :: ids))
    with (id ++ String "," (Js.join "," (id' :: ids))).
  rewrite split_on_app by assumption. f_equal. now apply IH.
Qed.

Lemma batches_members (videoIds batch : list string) :
  In batch (batches videoIds) ->
  batch <> [] /\ forall id, In id batch -> In id videoIds.
Proof.
  intros Hin. split.
  - pose proof (batches_bounded videoIds) as Hall.
    rewrite Forall_forall in Hall. specialize (Hall _ Hin).
    destruct batch; [simpl in Hall; lia | discriminate].
  - intros id Hid. rewrite <- (batches_concat videoIds).
    apply in_concat. now exists batch.
Qed.

Lemma videosQuery_ids (apiKey : string) (videoIds batch : list string) :
  forallb (Js.all not_comma) videoIds = true ->
  In batch (batches videoIds) ->
  split_on "," (vq_id (videosQuery apiKey batch)) = batch.
Proof.
  intros Hfree Hin. destruct (batches_members _ _ Hin) as [Hne Hsub].
  cbn [videosQuery vq_id]. apply split_join; [assumption|].
  apply forallb_forall. intros id Hid.
  rewrite forallb_forall in Hfree. apply Hfree. now apply Hsub.
Qed.

Lemma idsOf_videoCalls (apiKey : string) (bs : list (list string)) :
  (forall batch, In batch bs ->
     split_on "," (vq_id (videosQuery apiKey batch)) = batch) ->
  forall responses : list (Fetched VideosResponse),
    map idsOf (videoCalls apiKey bs responses)
    = firstn (List.length responses) bs.
Proof.
  unfold videoCalls. induction bs as [|b bs IH]; intros Hall responses.
  - cbn. now rewrite firstn_nil.
  - destruct responses as [|r responses]; [reflexivity|].
    cbn [combine map fst snd List.length firstn idsOf].
    rewrite (Hall b (or_introl eq_refl)). f_equal.
    apply IH. intros batch Hb. apply Hall. now right.
Qed.

Lemma videoCalls_queries (apiKey : string) (bs : list (list string))
    (responses : list (Fetched VideosResponse)) (x : Exchange) :
  In x (videoCalls apiKey bs responses) ->
  exists batch response,
    In batch bs /\ x = VideosCall (videosQuery apiKey batch) response.
Proof.
  unfold videoCalls. intros Hx.
  apply in_map_iff in Hx as ([batch response] & <- & Hin).
  exists batch, response. split; [|reflexivity].
  now apply in_combine_l in Hin.
Qed.

Section DetailsLookup.

Context {S : Type} (service : Service S).

(** C6.  The batches of [fetchVideoDetails] are consecutive runs of the
    input of 1 to 50 ids each; put end to end they are the input again, so
    that every id is in them as often as in the input; there are
    [ceil(n/50)] of them for [n] ids, and 50, 50 and 20 ids in the three
    batches of 120 ids.  Whatever the service answers, the function ends,
    and it has looked up the first batches only, one call per batch, in
    order.  When it returns, and it does when every lookup is answered, it
    has made exactly one call for every batch.  Every call asks for the
    snippet and the content details with the key given, and its [id]
    parameter is the ids of its batch with a comma between them: when no
    id has a comma in it, the ids read back from the calls are those of
    the first batches, and when the function returns they are, call after
    call, the input. *)
Theorem fetchVideoDetails_batches (videoIds : list string) (apiKey : string)
    (s : S) :
  let n := List.length videoIds in
  let run := fetchVideoDetails service videoIds apiKey s in
  List.concat (batches videoIds) = videoIds
  /\ Forall (fun b => (1 <= List.length b <= 50)%nat) (batches videoIds)
  /\ Z.of_nat (List.length (batches videoIds)) = (Z.of_nat n + 49) / 50
  /\ (50 * (List.length (batches videoIds) - 1) < n
         <= 50 * List.length (batches videoIds)
      \/ n = 0 /\ batches videoIds = [])%nat
  /\ (forall id,
        count_occ string_dec (List.concat (batches videoIds)) id
        = count_occ string_dec videoIds id)
  /\ (n = 120%nat ->
      map (@List.length string) (batches videoIds) = [50; 50; 20]%nat)
  /\ (exists responses,
        calls run = videoCalls apiKey (batches videoIds) responses
        /\ (List.length responses <= List.length (batches videoIds))%nat
        /\ (forall allVideos,
              outcome run = Value allVideos ->
              List.length (calls run) = List.length (batches videoIds)))
  /\ outcome run <> Diverge
  /\ (forall responses s',
        Answered service apiKey s (batches videoIds) responses s' ->
        outcome run = Value (List.concat (map vr_items responses))
        /\ final_state run = s'
        /\ calls run = videoCalls apiKey (batches videoIds) (map Ok responses)
        /\ List.length (calls run) = List.length (batches videoIds))
  /\ (forall x, In x (calls run) ->
        exists batch response,
          In batch (batches videoIds)
          /\ x = VideosCall {| vq_part := "snippet,contentDetails";
                               vq_id := vq_id (videosQuery apiKey batch);
                               vq_key := apiKey |} response)
  /\ (forallb (Js.all not_comma) videoIds = true ->
      (forall batch, In batch (batches videoIds) ->
         split_on "," (vq_id (videosQuery apiKey batch)) = batch)
      /\ map idsOf (calls run)
         = firstn (List.length (calls run)) (batches videoIds)
      /\ (forall allVideos,
            outcome run = Value allVideos ->
            map idsOf (calls run) = batches videoIds
            /\ List.concat (map idsOf (calls run)) = videoIds)).
Proof.
  intros n run.
  split; [apply batches_concat|]. split; [apply batches_bounded|].
  split; [rewrite batches_length; unfold batchCount; subst n;
          rewrite Z2Nat.id; [reflexivity | apply Z.div_pos; lia]|].
  split.
  { rewrite batches_length. subst n.
    destruct (batchCount_spec videoIds) as [H | [E Hc]]; [left; exact H|].
    right. split; [now rewrite E|]. unfold batches. now rewrite Hc. }
  split; [intros id; now rewrite batches_concat|].
  split.
  { intros Hn. subst n. unfold batches.
    assert (batchCount videoIds = 3%nat) as -> by (unfold batchCount; now rewrite Hn).
    cbn [seq map]. rewrite !batch_length, Hn. reflexivity. }
  destruct (fetchVideoDetails_loop_calls service videoIds apiKey
              (batchCount videoIds) 0 (List.length videoIds) [] s
              eq_refl (batchCount_le_length videoIds))
    as (responses & Hcalls & Hlen & Hnd & Hval).
  change (fetchVideoDetails_loop service (List.length videoIds) videoIds apiKey
            (50 * Z.of_nat 0) [] s) with run in *.
  fold (batches videoIds) in Hcalls.
  split; [|split; [exact Hnd|split; [|split]]].
  - exists responses.
    rewrite batches_length. repeat split; auto.
    intros allVideos Ha. rewrite Hcalls, videoCalls_length, batches_length.
    rewrite (Hval _ Ha). apply Nat.min_id.
  - intros answers s' Hans.
    pose proof (Answered_length _ _ _ _ _ _ Hans) as Hal.
    pose proof (fetchVideoDetails_loop_answered service videoIds apiKey
                  (batchCount videoIds) 0 (List.length videoIds) [] s s' answers
                  eq_refl (batchCount_le_length videoIds) Hans) as Hrun.
    change (fetchVideoDetails_loop service (List.length videoIds) videoIds apiKey
              (50 * Z.of_nat 0) [] s) with run in Hrun.
    rewrite Hrun. cbn [outcome final_state calls fst snd].
    repeat split; auto.
    fold (batches videoIds).
    rewrite videoCalls_length, length_map, Hal. apply Nat.min_id.
  - intros x Hx. rewrite Hcalls in Hx.
    apply videoCalls_queries in Hx as (batch & response & Hin & ->).
    now exists batch, response.
  - intros Hfree.
    assert (Hids : forall batch, In batch (batches videoIds) ->
                     split_on "," (vq_id (videosQuery apiKey batch)) = batch)
      by (intros batch; now apply videosQuery_ids).
    assert (Hfirst : map idsOf (calls run)
                     = firstn (List.length responses) (batches videoIds))
      by (rewrite Hcalls; now apply idsOf_videoCalls).
    split; [exact Hids|]. split.
    + rewrite Hfirst at 1. f_equal.
      rewrite Hcalls, videoCalls_length, batches_length. lia.
    + intros allVideos Ha.
      assert (map idsOf (calls run) = batches videoIds) as ->.
      { rewrite Hfirst, (Hval _ Ha), <- batches_length. apply firstn_all. }
      split; [reflexivity | apply batches_concat].
Qed.

End DetailsLookup.

(** ** The handler *)

Lemma Math_round_div (total count : Z) :
  0 < count ->
  Js.Math_round (inject_Z total / inject_Z count)
  = (2 * total + count) / (2 * count).
Proof.
  intros Hc. destruct count as [|p|p]; try lia.
  unfold Js.Math_round, Qdiv, Qinv, Qmult, Qplus, Qfloor, inject_Z; simpl Qnum;
    simpl Qden. f_equal; lia.
Qed.

Lemma sumDurations_fold (videos : list VideoData) :
  sumDurations videos = fold_right Z.add 0 (map durationSeconds videos).
Proof.
  unfold sumDurations.
  assert (H : forall acc,
            fold_left (fun sum video => sum + durationSeconds video) videos acc
            = acc + fold_right Z.add 0 (map durationSeconds videos)).
  { induction videos as [|v l IH]; intros acc; simpl; [lia|]. rewrite IH. lia. }
  now rewrite H.
Qed.

Lemma extractPlaylistId_truthy (url playlistId : string) :
  extractPlaylistId url = Some playlistId ->
  Js.truthy_string url = true /\ Js.truthy_string playlistId = true.
Proof.
  intros H. split.
  - destruct url; [discriminate | reflexivity].
  - apply search_some in H as (pre & suf & _ & Hm & _).
    apply playlist_id_here_some in Hm as (_ & _ & _ & _ & Hne & _).
    destruct playlistId; [now elim Hne | reflexivity].
Qed.

Section Handler.

Context {S : Type} (service : Service S).

Lemma bind_run {A B : Type} (m : M S A) (f : A -> M S B) (s : S) :
  bind m f s
  = match m s with
    | (Value a, s1, t1) =>
        match f a s1 with (o, s2, t2) => (o, s2, (t1 ++ t2)%list) end
    | (Throw e, s1, t1) => (Throw e, s1, t1)
    | (Diverge, s1, t1) => (Diverge, s1, t1)
    end.
Proof. reflexivity. Qed.

Lemma try_catch_run {A : Type} (m : M S A) (handler : Thrown -> M S A) (s : S) :
  try_catch m handler s
  = match m s with
    | (Throw e, s1, t1) =>
        match handler e s1 with (o, s2, t2) => (o, s2, (t1 ++ t2)%list) end
    | r => r
    end.
Proof. reflexivity. Qed.

Lemma fetchAllPlaylistItems_loop_calls (budget : nat) :
  forall (playlistId apiKey : string) (allItems : list PlaylistItem)
         (cursor : option string) (s : S) (x : Exchange),
    In x (calls (fetchAllPlaylistItems_loop service budget playlistId apiKey
                   allItems cursor s)) ->
    is_videos_call x = false /\ is_playlists_call x = false.
Proof.
  induction budget as [|budget IH]; intros playlistId apiKey allItems cursor s x;
    cbn [fetchAllPlaylistItems_loop]; [now cbn|].
  unfold bind, fetchPlaylistItems.
  destruct (playlistItems service s _) as [r s1].
  destruct r as [e | [e | message] | data]; cbn;
    try (intros [<- | []]; now split).
  destruct (Js.truthy_opt_string (pr_nextPageToken data)).
  - specialize (IH playlistId apiKey (allItems ++ pr_items data)%list
                  (pr_nextPageToken data) s1 x).
    destruct (fetchAllPlaylistItems_loop service budget playlistId apiKey
                (allItems ++ pr_items data)%list (pr_nextPageToken data) s1)
      as [[o s2] t2].
    cbn in *. intros [<- | Hin]; [now split | now apply IH].
  - cbn. intros [<- | []]; now split.
Qed.

Lemma fetchVideoDetails_calls (videoIds : list string) (apiKey : string)
    (s : S) (x : Exchange) :
  In x (calls (fetchVideoDetails service videoIds apiKey s)) ->
  is_playlists_call x = false.
Proof.
  destruct (fetchVideoDetails_loop_calls service videoIds apiKey
              (batchCount videoIds) 0 (List.length videoIds) [] s
              eq_refl (batchCount_le_length videoIds))
    as (responses & Hcalls & _).
  unfold fetchVideoDetails.
  change 0 with (50 * Z.of_nat 0) at 1.
  rewrite Hcalls. unfold videoCalls. intros Hin.
  apply in_map_iff in Hin as (br & <- & _). reflexivity.
Qed.

Lemma lookupPlaylistTitle_run (playlistId apiKey : string) (s : S) :
  let q := playlistsQuery playlistId apiKey in
  lookupPlaylistTitle service playlistId apiKey s
  = (Value (titleOf (fst (playlists service s q))),
     snd (playlists service s q),
     [PlaylistsCall q (fst (playlists service s q))]).
Proof.
  intros q. unfold lookupPlaylistTitle, try_catch, bind, fetchPlaylists.
  fold (playlistsQuery playlistId apiKey). fold q.
  destruct (playlists service s q) as [r s1].
  destruct r as [e | errorData | [[[|first rest]|]]]; reflexivity.
Qed.

(** The runs of the handler: either it gets as far as the title lookup and
    answers with the result, or it answers with an error, diverges in the
    paging loop, and has not asked for the title. *)
Lemma POST_run (budget : nat) (apiKey : option string) (request : RequestBody)
    (s : S) :
  let run := POST service budget apiKey request s in
  (exists key playlistId playlistItems selectedItems videoDetails s1 t1 s2 t2,
      apiKey = Some key
      /\ Js.truthy_string key = true
      /\ missingFields request = false
      /\ (forall x, In x (t1 ++ t2)%list -> is_playlists_call x = false)
      /\ extractPlaylistId (playlistUrl request) = Some playlistId
      /\ fetchAllPlaylistItems service budget playlistId key s
         = (Value playlistItems, s1, t1)
      /\ playlistItems <> []
      /\ selectItems (completePlaylist request) (startVideo request)
           (endVideo request) playlistItems = Some selectedItems
      /\ fetchVideoDetails service (map item_videoId selectedItems) key s1
         = (Value videoDetails, s2, t2)
      /\ let q := playlistsQuery playlistId key in
         let r := fst (playlists service s2 q) in
         run = (Value (json_result
                         (resultOf (titleOf r) playlistItems selectedItems
                            videoDetails)),
                snd (playlists service s2 q),
                (t1 ++ t2 ++ [PlaylistsCall q r])%list))
  \/ ((forall response, outcome run = Value response ->
                        exists error st,
                          response = json_error error st /\ st <> 200)
      /\ (forall x, In x (calls run) -> is_playlists_call x = false)).
Proof.
  intros run. subst run. unfold POST. rewrite try_catch_run.
  assert (Hearly : forall error st (s0 : S) (t0 : list Exchange),
            st <> 200 ->
            (forall x, In x t0 -> is_playlists_call x = false) ->
            (forall response,
               outcome (Value (json_error error st), s0, t0) = Value response ->
               exists error' st', response = json_error error' st' /\ st' <> 200)
            /\ (forall x, In x (calls (Value (json_error error st), s0, t0)) ->
                          is_playlists_call x = false)).
  { intros error st s0 t0 Hst Ht0. split; [|exact Ht0].
    intros ? [= <-]. now exists error, st. }
  fold (missingFields request).
  destruct (missingFields request) eqn:Hguard.
  { right. apply Hearly; [lia | easy]. }
  destruct apiKey as [key|]; cbn [Js.truthy_opt_string negb].
  2:{ right. apply Hearly; [lia | easy]. }
  destruct (Js.truthy_string key) eqn:Hkey; cbn [negb].
  2:{ right. apply Hearly; [lia | easy]. }
  assert (Js.or_else (Some key) "" = key) as ->
    by (unfold Js.or_else; cbn; now rewrite Hkey).
  destruct (extractPlaylistId (playlistUrl request)) as [playlistId|] eqn:Hid;
    cbn [Js.truthy_opt_string negb].
  2:{ right. apply Hearly; [lia | easy]. }
  destruct (extractPlaylistId_truthy _ _ Hid) as [_ Hpid]. rewrite Hpid. cbn [negb].
  assert (Js.or_else (Some playlistId) "" = playlistId) as ->
    by (unfold Js.or_else; cbn; now rewrite Hpid).
  rewrite bind_run.
  pose proof (fetchAllPlaylistItems_loop_calls budget playlistId key [] None s) as Hpages.
  fold (fetchAllPlaylistItems service budget playlistId key) in Hpages.
  destruct (fetchAllPlaylistItems service budget playlistId key s)
    as [[[playlistItems | e |] s1] t1] eqn:Hfetch; cbn [calls snd] in Hpages.
  2:{ right. cbv beta iota. unfold ret. rewrite List.app_nil_r.
      apply Hearly; [lia | intros x Hx; now apply Hpages]. }
  2:{ right. split; [discriminate | intros x Hx; now apply Hpages]. }
  destruct (Z.of_nat (List.length playlistItems) =? 0) eqn:Hlen.
  { right. unfold ret. rewrite List.app_nil_r.
    apply Hearly; [lia | intros x Hx; now apply Hpages]. }
  destruct (selectItems (completePlaylist request) (startVideo request)
              (endVideo request) playlistItems) as [selectedItems|] eqn:Hsel.
  2:{ right. unfold ret. rewrite List.app_nil_r.
      apply Hearly; [lia | intros x Hx; now apply Hpages]. }
  rewrite bind_run.
  pose proof (fetchVideoDetails_calls (map item_videoId selectedItems) key s1)
    as Hdetails.
  destruct (fetchVideoDetails service (map item_videoId selectedItems) key s1)
    as [[[videoDetails | e |] s2] t2] eqn:Hvideos; cbn [calls snd] in Hdetails.
  2:{ right. cbv beta iota. unfold ret. rewrite List.app_nil_r.
      apply Hearly; [lia|].
      intros x Hx. apply in_app_or in Hx as [Hx | Hx];
        [now apply Hpages | now apply Hdetails]. }
  2:{ right. split; [discriminate|].
      intros x Hx. apply in_app_or in Hx as [Hx | Hx];
        [now apply Hpages | now apply Hdetails]. }
  left. exists key, playlistId, playlistItems, selectedItems, videoDetails, s1, t1, s2, t2.
  do 3 (split; [first [reflexivity | assumption] |]).
  split.
  { intros x Hx. apply in_app_or in Hx as [Hx | Hx];
      [now apply Hpages | now apply Hdetails]. }
  do 2 (split; [first [reflexivity | assumption] |]).
  split.
  { intros ->. discriminate. }
  do 2 (split; [first [reflexivity | assumption] |]).
  rewrite bind_run, lookupPlaylistTitle_run. reflexivity.
Qed.

(** The three checks of the handler before the first call, passed. *)
Ltac pass_checks Hguard Hkey Hid :=
  unfold POST; rewrite try_catch_run;
  match type of Hguard with missingFields ?request = false =>
    fold (missingFields request)
  end;
  rewrite Hguard; cbn [Js.truthy_opt_string negb]; rewrite Hkey; cbn [negb];
  match type of Hkey with Js.truthy_string ?key = true =>
    replace (Js.or_else (Some key) "") with key
      by (unfold Js.or_else; cbn; now rewrite Hkey)
  end;
  rewrite Hid; cbn [Js.truthy_opt_string];
  match type of Hid with _ = Some ?playlistId =>
    let Hpid := fresh "Hpid" in
    destruct (extractPlaylistId_truthy _ _ Hid) as [_ Hpid];
    rewrite Hpid; cbn [negb];
    replace (Js.or_else (Some playlistId) "") with playlistId
      by (unfold Js.or_else; cbn; now rewrite Hpid)
  end.

(** The handler once the membership is fetched and is not empty. *)
Lemma POST_fetched (budget : nat) (key : string) (request : RequestBody)
    (s s1 : S) (playlistId : string) (playlistItems : list PlaylistItem)
    (t1 : list Exchange) :
  missingFields request = false ->
  Js.truthy_string key = true ->
  extractPlaylistId (playlistUrl request) = Some playlistId ->
  fetchAllPlaylistItems service budget playlistId key s
    = (Value playlistItems, s1, t1) ->
  playlistItems <> [] ->
  POST service budget (Some key) request s
  = match selectItems (completePlaylist request) (startVideo request)
            (endVideo request) playlistItems with
    | None => (Value (json_error "Invalid video range" 400), s1, t1)
    | Some selectedItems =>
        match fetchVideoDetails service (map item_videoId selectedItems) key s1
        with
        | (Value videoDetails, s2, t2) =>
            let q := playlistsQuery playlistId key in
            let r := fst (playlists service s2 q) in
            (Value (json_result
                      (resultOf (titleOf r) playlistItems selectedItems
                         videoDetails)),
             snd (playlists service s2 q),
             (t1 ++ t2 ++ [PlaylistsCall q r])%list)
        | (Throw e, s2, t2) =>
            (Value (json_error
                      match e with
                      | Error message => message
                      | NotAnError => "An unexpected error occurred"
                      end 500), s2, (t1 ++ t2)%list)
        | (Diverge, s2, t2) => (Diverge, s2, (t1 ++ t2)%list)
        end
    end.
Proof.
  intros Hguard Hkey Hid Hfetch Hne.
  pass_checks Hguard Hkey Hid.
  rewrite bind_run, Hfetch.
  assert ((Z.of_nat (List.length playlistItems) =? 0) = false) as ->.
  { apply Z.eqb_neq. destruct playlistItems; [now elim Hne | simpl List.length; lia]. }
  destruct (selectItems _ _ _ playlistItems) as [selectedItems|].
  2:{ unfold ret. now rewrite List.app_nil_r. }
  rewrite bind_run.
  destruct (fetchVideoDetails service (map item_videoId selectedItems) key s1)
    as [[[videoDetails | e |] s2] t2].
  - rewrite bind_run, lookupPlaylistTitle_run. reflexivity.
  - cbv beta iota. unfold ret. now rewrite List.app_nil_r.
  - reflexivity.
Qed.

(** The handler when the membership comes back empty. *)
Lemma POST_empty (budget : nat) (key : string) (request : RequestBody)
    (s s1 : S) (playlistId : string) (t1 : list Exchange) :
  missingFields request = false ->
  Js.truthy_string key = true ->
  extractPlaylistId (playlistUrl request) = Some playlistId ->
  fetchAllPlaylistItems service budget playlistId key s = (Value [], s1, t1) ->
  POST service budget (Some key) request s
  = (Value (json_error "Playlist is empty or not found" 404), s1, t1).
Proof.
  intros Hguard Hkey Hid Hfetch.
  pass_checks Hguard Hkey Hid.
  rewrite bind_run, Hfetch. cbn. now rewrite List.app_nil_r.
Qed.

(** The catalog client does not depend on the responder of the title
    lookup. *)
Lemma fetchAllPlaylistItems_loop_withPlaylists
    (playlists' : S -> PlaylistsQuery -> Fetched PlaylistsData * S)
    (budget : nat) :
  forall (playlistId apiKey : string) (allItems : list PlaylistItem)
         (cursor : option string) (s : S),
    fetchAllPlaylistItems_loop (withPlaylists service playlists') budget
      playlistId apiKey allItems cursor s
    = fetchAllPlaylistItems_loop service budget playlistId apiKey allItems
        cursor s.
Proof.
  reflexivity.
Qed.

Lemma fetchVideoDetails_loop_withPlaylists
    (playlists' : S -> PlaylistsQuery -> Fetched PlaylistsData * S)
    (videoIds : list string) (apiKey : string) (steps : nat) :
  forall (i : Z) (allVideos : list VideoItem) (s : S),
    fetchVideoDetails_loop (withPlaylists service playlists') steps videoIds
      apiKey i allVideos s
    = fetchVideoDetails_loop service steps videoIds apiKey i allVideos s.
Proof.
  reflexivity.
Qed.

End Handler.

Section Aggregation.

Context {S : Type} (service : Service S).

Lemma POST_missing (budget : nat) (apiKey : option string)
    (request : RequestBody) (s : S) :
  missingFields request = true ->
  POST service budget apiKey request s
  = (Value (json_error "Missing required fields" 400), s, []).
Proof.
  intros Hguard. unfold POST. rewrite try_catch_run.
  fold (missingFields request). now rewrite Hguard.
Qed.

(** C2.  Take a request with an explicit range, for which the catalog
    delivers a membership of [N >= 1] entries.  If [start] is 0 (or less),
    or [end < start], or [start > N], the handler answers with status 400
    and a message that names the fault, "Missing required fields" when
    [start] is 0 and otherwise that one or "Invalid video range", and it has
    made no call to the details lookup. *)
Theorem invalid_range_rejected (budget : nat) (key : string)
    (request : RequestBody) (s s1 : S) (playlistId : string)
    (playlistItems : list PlaylistItem) (t1 : list Exchange) :
  completePlaylist request = false ->
  Js.truthy_string key = true ->
  extractPlaylistId (playlistUrl request) = Some playlistId ->
  fetchAllPlaylistItems service budget playlistId key s
    = (Value playlistItems, s1, t1) ->
  playlistItems <> [] ->
  startVideo request < 1
  \/ endVideo request < startVideo request
  \/ startVideo request > Z.of_nat (List.length playlistItems) ->
  let run := POST service budget (Some key) request s in
  exists message,
    outcome run = Value (json_error message 400)
    /\ (message = "Missing required fields" \/ message = "Invalid video range")
    /\ (startVideo request = 0 ->
        message = "Missing required fields" /\ calls run = [])
    /\ forall x, In x (calls run) -> is_videos_call x = false.
Proof.
  intros Hexplicit Hkey Hid Hfetch Hne Hrange run. subst run.
  destruct (missingFields request) eqn:Hguard.
  - rewrite POST_missing by assumption.
    exists "Missing required fields". cbn. repeat split; auto. easy.
  - rewrite (POST_fetched service budget key request s s1 playlistId
               playlistItems t1) by assumption.
    rewrite Hexplicit.
    apply selectItems_invalid in Hrange. rewrite Hrange.
    exists "Invalid video range". cbn [outcome calls fst snd].
    split; [reflexivity|]. split; [now right|]. split.
    + intros Hzero. unfold missingFields in Hguard.
      rewrite Hexplicit, Hzero in Hguard. cbn in Hguard.
      now rewrite orb_true_r in Hguard.
    + intros x Hx.
      pose proof (fetchAllPlaylistItems_loop_calls service budget playlistId
                    key [] None s x) as Hpages.
      fold (fetchAllPlaylistItems service budget playlistId key) in Hpages.
      rewrite Hfetch in Hpages. now apply Hpages.
Qed.

(** C4.  In every response that carries a result, at least one video is
    selected.  The total is the sum of the seconds of the selected videos
    when that sum is [MAX_SAFE_INTEGER] at most, and when it is below 2^52
    the average is [Math.round] of the total over their number: the nearest
    integer, a half going up.  A membership that comes back empty is
    answered with status 404 before anything is selected.  Videos of 120,
    180 and 300 seconds have the total 600 and the average 200; videos of
    100 and 101 seconds have the total 201 and the average 101. *)
Theorem aggregation_arithmetic (budget : nat) (apiKey : option string)
    (request : RequestBody) (s : S) :
  (forall response result,
     outcome (POST service budget apiKey request s) = Value response ->
     body response = ResultBody result ->
     let count := Z.of_nat (List.length (selectedVideos result)) in
     let seconds :=
       fold_right Z.add 0 (map durationSeconds (selectedVideos result)) in
     1 <= count
     /\ (seconds <= MAX_SAFE_INTEGER -> totalDuration result = seconds)
     /\ (seconds < 2 ^ 52 ->
         averageDuration result
         = Js.Math_round (inject_Z (totalDuration result) / inject_Z count)
         /\ 2 * count * averageDuration result
            <= 2 * totalDuration result + count
            < 2 * count * (averageDuration result + 1)))
  /\ (forall key playlistId s1 t1,
        apiKey = Some key ->
        Js.truthy_string key = true ->
        missingFields request = false ->
        extractPlaylistId (playlistUrl request) = Some playlistId ->
        fetchAllPlaylistItems service budget playlistId key s
          = (Value [], s1, t1) ->
        POST service budget apiKey request s
        = (Value (json_error "Playlist is empty or not found" 404), s1, t1))
  /\ (forall videos,
        map durationSeconds videos = [120; 180; 300] ->
        sumDurations videos = 600 /\ average 600 videos = 200)
  /\ (forall videos,
        map durationSeconds videos = [100; 101] ->
        sumDurations videos = 201 /\ average 201 videos = 101).
Proof.
  split; [|split; [|split]].
  2:{ intros key playlistId s1 t1 -> Hkey Hguard Hid Hfetch.
      now apply POST_empty with (playlistId := playlistId). }
  - intros response result Hout Hbody count seconds.
    destruct (POST_run service budget apiKey request s)
      as [(key & playlistId & playlistItems & selectedItems & videoDetails
           & s1 & t1 & s2 & t2 & _ & _ & _ & _ & _ & _ & Hne & Hsel & _ & Hrun)
         | [Herr _]].
    2:{ destruct (Herr _ Hout) as (error & st & -> & _). discriminate. }
    cbv zeta in Hrun. rewrite Hrun in Hout. cbn [outcome fst] in Hout.
    injection Hout as <-. cbn [body json_result] in Hbody.
    injection Hbody as <-. subst count seconds.
    cbn [resultOf selectedVideos totalDuration averageDuration].
    pose proof (selectItems_nonempty _ _ _ _ _ Hne Hsel) as Hcount.
    rewrite length_map.
    set (count := Z.of_nat (List.length selectedItems)).
    assert (Hpos : 0 < count) by (subst count; lia).
    split; [lia|]. split; [intros _; apply sumDurations_fold|].
    intros _. unfold average. rewrite length_map. fold count.
    split; [reflexivity|].
    rewrite Math_round_div by assumption.
    set (total := sumDurations _).
    pose proof (Z.mul_div_le (2 * total + count) (2 * count) ltac:(lia)).
    pose proof (Z.mul_succ_div_gt (2 * total + count) (2 * count) ltac:(lia)).
    lia.
  - intros videos Hd. rewrite sumDurations_fold, Hd. split; [reflexivity|].
    unfold average. rewrite <- (length_map durationSeconds), Hd. reflexivity.
  - intros videos Hd. rewrite sumDurations_fold, Hd. split; [reflexivity|].
    unfold average. rewrite <- (length_map durationSeconds), Hd. reflexivity.
Qed.

(** C10.  In every response that carries a result, [playlist.totalVideos]
    is the number of entries of the whole membership that was fetched, of
    which the selected videos may be a part only, and [playlist.videos] is
    the empty array. *)
Theorem result_shape (budget : nat) (apiKey : option string)
    (request : RequestBody) (s : S) (response : HttpResponse)
    (result : ResultsData) :
  outcome (POST service budget apiKey request s) = Value response ->
  body response = ResultBody result ->
  pl_videos (playlist result) = []
  /\ exists key playlistId playlistItems selectedItems s1 t1,
       apiKey = Some key
       /\ extractPlaylistId (playlistUrl request) = Some playlistId
       /\ fetchAllPlaylistItems service budget playlistId key s
          = (Value playlistItems, s1, t1)
       /\ selectItems (completePlaylist request) (startVideo request)
            (endVideo request) playlistItems = Some selectedItems
       /\ totalVideos (playlist result) = Z.of_nat (List.length playlistItems)
       /\ List.length (selectedVideos result) = List.length selectedItems
       /\ (List.length selectedItems <= List.length playlistItems)%nat.
Proof.
  intros Hout Hbody.
  destruct (POST_run service budget apiKey request s)
    as [(key & playlistId & playlistItems & selectedItems & videoDetails
         & s1 & t1 & s2 & t2 & Hkey & _ & _ & _ & Hid & Hfetch & Hne & Hsel
         & _ & Hrun)
       | [Herr _]].
  2:{ destruct (Herr _ Hout) as (error & st & -> & _). discriminate. }
  cbv zeta in Hrun. rewrite Hrun in Hout. cbn [outcome fst] in Hout.
  injection Hout as <-. cbn [body json_result] in Hbody. injection Hbody as <-.
  split; [reflexivity|].
  exists key, playlistId, playlistItems, selectedItems, s1, t1.
  repeat (split; [assumption|]).
  split; [reflexivity|]. cbn [resultOf selectedVideos].
  rewrite length_map. split; [reflexivity|].
  now apply (selectItems_nonempty _ _ _ _ _ Hne Hsel).
Qed.

(** C8.  When the handler has made the title lookup, whatever came back,
    it answers with a result.  The title of the result is the one of the
    first item of the response; it is ["Unknown Playlist"] when the lookup
    has failed: a rejected promise, a response that is not ok, or a
    response without items.  No other field depends on the lookup: with any
    other responder for the title the handler answers with a result that
    has the same [totalVideos], [videos], [selectedVideos], [totalDuration]
    and [averageDuration]. *)
Theorem title_lookup_isolated (budget : nat) (apiKey : option string)
    (request : RequestBody) (s : S) (q : PlaylistsQuery)
    (r : Fetched PlaylistsData) :
  In (PlaylistsCall q r) (calls (POST service budget apiKey request s)) ->
  exists result,
    outcome (POST service budget apiKey request s) = Value (json_result result)
    /\ pl_title (playlist result) = titleOf r
    /\ (lookupFailed r -> pl_title (playlist result) = fallbackTitle)
    /\ forall playlists',
         exists result',
           outcome (POST (withPlaylists service playlists') budget apiKey
                      request s)
             = Value (json_result result')
           /\ totalVideos (playlist result') = totalVideos (playlist result)
           /\ pl_videos (playlist result') = pl_videos (playlist result)
           /\ selectedVideos result' = selectedVideos result
           /\ totalDuration result' = totalDuration result
           /\ averageDuration result' = averageDuration result.
Proof.
  intros Hcall.
  destruct (POST_run service budget apiKey request s)
    as [(key & playlistId & playlistItems & selectedItems & videoDetails
         & s1 & t1 & s2 & t2 & -> & Hkey & Hguard & Hnone & Hid & Hfetch & Hne
         & Hsel & Hvideos & Hrun)
       | [_ Hnone]].
  2:{ now pose proof (Hnone _ Hcall). }
  cbv zeta in Hrun. rewrite Hrun in Hcall |- *. cbn [calls snd] in Hcall.
  rewrite List.app_assoc in Hcall. apply in_app_or in Hcall as [Hcall | Hcall].
  { now pose proof (Hnone _ Hcall). }
  destruct Hcall as [Hcall | []]. injection Hcall as _ <-.
  set (r := fst (playlists service s2 (playlistsQuery playlistId key))).
  eexists. split; [reflexivity|]. split; [reflexivity|]. split.
  - cbn [resultOf playlist pl_title]. clearbody r.
    destruct r as [e | errorData | [[[|first rest]|]]]; cbn;
      intros H; try reflexivity; destruct H; discriminate.
  - intros playlists'.
    rewrite (POST_fetched (withPlaylists service playlists') budget key request
               s s1 playlistId playlistItems t1 Hguard Hkey Hid Hfetch Hne).
    rewrite Hsel.
    change (fetchVideoDetails (withPlaylists service playlists'))
      with (fetchVideoDetails service).
    rewrite Hvideos. eexists. split; [reflexivity|]. now cbn.
Qed.

End Aggregation.

(** ** The properties at work on the scripted service *)

Lemma selectItems_correct_witness :
  1 <= 2 <= 9 /\ 2 <= 5
  /\ selectItems false 2 9 (Mock.items 1 5) = Some (Mock.items 2 4).
Proof.
  split; [lia|]. split; [lia|].
  destruct (selectItems_correct (Mock.items 1 5)) as (_ & Hrange & _).
  destruct (Hrange 2 9) as (selectedItems & Hsel & Heq & _);
    [lia | vm_compute; discriminate |].
  rewrite Hsel, Heq. reflexivity.
Defined.

Lemma invalid_range_rejected_witness :
  exists message,
    outcome (POST Mock.service 1 (Some "key") (Mock.range 4 9) Mock.playlist3)
      = Value (json_error message 400)
    /\ (message = "Missing required fields" \/ message = "Invalid video range")
    /\ (4 = 0 -> message = "Missing required fields"
                 /\ calls (POST Mock.service 1 (Some "key") (Mock.range 4 9)
                             Mock.playlist3) = [])
    /\ forall x,
         In x (calls (POST Mock.service 1 (Some "key") (Mock.range 4 9)
                        Mock.playlist3)) ->
         is_videos_call x = false.
Proof.
  eapply (invalid_range_rejected Mock.service 1 "key" (Mock.range 4 9)
            Mock.playlist3 _ "PLx0_a-9" (Mock.items 1 3)).
  - reflexivity.
  - reflexivity.
  - reflexivity.
  - reflexivity.
  - discriminate.
  - right; right. vm_compute. reflexivity.
Defined.


Lemma aggregation_arithmetic_witness :
  exists result,
    outcome (POST Mock.service 1 (Some "key") Mock.wholePlaylist Mock.playlist3)
      = Value (json_result result)
    /\ map durationSeconds (selectedVideos result) = [120; 180; 300]
    /\ 1 <= Z.of_nat (List.length (selectedVideos result))
    /\ totalDuration result = 600
    /\ averageDuration result = 200.
Proof.
  eexists. split; [reflexivity|]. split; [reflexivity|].
  destruct (aggregation_arithmetic Mock.service 1 (Some "key")
              Mock.wholePlaylist Mock.playlist3) as (Hresult & _).
  destruct (Hresult _ _ eq_refl eq_refl) as (Hcount & Htotal & Haverage).
  split; [exact Hcount|].
  split; [rewrite Htotal by discriminate; reflexivity|].
  destruct Haverage as [Haverage _]; [reflexivity|].
  rewrite Haverage. reflexivity.
Defined.

Lemma fetchAllPlaylistItems_pages_witness :
  outcome (fetchAllPlaylistItems Mock.service 3 "PLx0_a-9" "key" Mock.playlist120)
  = Value (Mock.items 1 120)
  /\ List.length (calls (fetchAllPlaylistItems Mock.service 3 "PLx0_a-9" "key"
                           Mock.playlist120)) = 3%nat.
Proof.
  assert (Hpaged : Paged Mock.service "PLx0_a-9" "key" Mock.playlist120 None
                     [Mock.page1; Mock.page2; Mock.page3]
                     (Mock.mkScript [] (Mock.details Mock.playlist120)
                        (Mock.titles Mock.playlist120))).
  { eapply Paged_next; [reflexivity | reflexivity |].
    eapply Paged_next; [reflexivity | reflexivity |].
    eapply Paged_last; reflexivity. }
  destruct (fetchAllPlaylistItems_pages Mock.service _ _ _ _ _ 3 Hpaged
              ltac:(simpl; lia))
    as (Hout & _ & _ & Hlen & _).
  split; [rewrite Hout; reflexivity | exact Hlen].
Defined.

Lemma fetchVideoDetails_batches_witness :
  let videoIds := map item_videoId (Mock.items 1 120) in
  let run := fetchVideoDetails Mock.service videoIds "key" Mock.playlist120 in
  map (@List.length string) (batches videoIds) = [50; 50; 20]%nat
  /\ outcome run = Value (Mock.metadata 1 120)
  /\ List.length (calls run) = 3%nat
  /\ map idsOf (calls run) = batches videoIds
  /\ List.concat (map idsOf (calls run)) = videoIds
  /\ vq_id (videosQuery "key" (nth 2 (batches videoIds) []))
     = "vid101,vid102,vid103,vid104,vid105,vid106,vid107,vid108,vid109,vid110,vid111,vid112,vid113,vid114,vid115,vid116,vid117,vid118,vid119,vid120"
  /\ split_on "," (vq_id (videosQuery "key" (nth 2 (batches videoIds) [])))
     = nth 2 (batches videoIds) [].
Proof.
  intros videoIds run.
  destruct (fetchVideoDetails_batches Mock.service videoIds "key"
              Mock.playlist120)
    as (_ & _ & _ & _ & _ & Hsizes & _ & _ & Hanswered & _ & Hids).
  split; [apply Hsizes; reflexivity|].
  assert (Hthree : batches videoIds
                   = [map item_videoId (Mock.items 1 50);
                      map item_videoId (Mock.items 51 50);
                      map item_videoId (Mock.items 101 20)])
    by (vm_compute; reflexivity).
  destruct (Hanswered
              [mkVideosResponse (Mock.metadata 1 50);
               mkVideosResponse (Mock.metadata 51 50);
               mkVideosResponse (Mock.metadata 101 20)]
              (Mock.mkScript (Mock.pages Mock.playlist120) []
                 (Mock.titles Mock.playlist120)))
    as (Hout & _ & _ & Hlen).
  { rewrite Hthree.
    eapply Answered_batch; [reflexivity|].
    eapply Answered_batch; [reflexivity|].
    eapply Answered_batch; [reflexivity|].
    apply Answered_none. }
  fold run in Hout, Hlen, Hids. split; [rewrite Hout; reflexivity|].
  split; [rewrite Hlen, Hthree; reflexivity|].
  destruct Hids as (Hbatch & _ & Hreturned); [vm_compute; reflexivity|].
  destruct (Hreturned _ Hout) as [Hcalls Hconcat].
  split; [exact Hcalls|]. split; [exact Hconcat|].
  split; [vm_compute; reflexivity|].
  apply Hbatch. rewrite Hthree. right; right; left. reflexivity.
Defined.

Lemma selectedVideos_join_witness :
  let videoDetails :=
    [mkVideoItem (Mock.videoIdOf 3) "" "PT5M";
     mkVideoItem (Mock.videoIdOf 1) "" "PT2M"] in
  let item := mkPlaylistItem "Video 2" (Mock.videoIdOf 2) in
  durationSeconds (toVideoData videoDetails item) = 0
  /\ duration (toVideoData videoDetails item) = "PT0S"
  /\ map durationSeconds (map (toVideoData videoDetails) (Mock.items 1 3))
     = [120; 0; 300].
Proof.
  intros videoDetails item.
  destruct (selectedVideos_join (Mock.items 1 3) videoDetails)
    as (_ & _ & Hmissing & _).
  destruct (Hmissing item) as [Hseconds Hduration].
  { intros detail [<- | [<- | []]]; discriminate. }
  split; [exact Hseconds|]. split; [exact Hduration | reflexivity].
Defined.

Lemma title_lookup_isolated_witness :
  exists result,
    outcome (POST Mock.service 1 (Some "key") Mock.wholePlaylist Mock.playlist2)
      = Value (json_result result)
    /\ pl_title (playlist result) = "Unknown Playlist"
    /\ map durationSeconds (selectedVideos result) = [100; 101]
    /\ totalDuration result = 201
    /\ averageDuration result = 101.
Proof.
  destruct (title_lookup_isolated Mock.service 1 (Some "key")
              Mock.wholePlaylist Mock.playlist2
              (playlistsQuery "PLx0_a-9" "key")
              (NotOk (inr (Some "quotaExceeded"))))
    as (result & Hout & _ & Hfallback & _).
  { right; right; left. reflexivity. }
  exists result. split; [exact Hout|]. split; [exact (Hfallback I)|].
  assert (Hresult : Value (json_result result)
                    = outcome (POST Mock.service 1 (Some "key")
                                 Mock.wholePlaylist Mock.playlist2))
    by (now rewrite Hout).
  vm_compute in Hresult. injection Hresult as ->. repeat split.
Defined.

Lemma extractPlaylistId_correct_witness :
  extractPlaylistId "https://www.youtube.com/playlist?list=PLx0_a-9&index=2"
    = Some "PLx0_a-9"
  /\ extractPlaylistId "https://youtu.be/playlist?list=PLx0_a-9" = Some "PLx0_a-9"
  /\ extractPlaylistId "https://www.youtube.com/watch?v=dQw4w9WgXcQ" = None.
Proof.
  destruct extractPlaylistId_correct as (_ & _ & Husual & _ & Hnone).
  destruct (Husual "PLx0_a-9" "&index=2") as [Hlong _];
    [discriminate | reflexivity | reflexivity |].
  destruct (Husual "PLx0_a-9" "") as [_ Hshort];
    [discriminate | reflexivity | reflexivity |].
  split; [exact Hlong|]. split; [exact Hshort|].
  apply Hnone. intros (pre & post & Heq).
  assert (Hsearch : Js.search (Js.strip_prefix "list=")
                      "https://www.youtube.com/watch?v=dQw4w9WgXcQ" = None)
    by reflexivity.
  rewrite search_none in Hsearch. specialize (Hsearch pre _ Heq).
  now rewrite strip_prefix_app in Hsearch.
Defined.

Lemma result_shape_witness :
  exists result,
    outcome (POST Mock.service 3 (Some "key") (Mock.range 10 20)
               Mock.playlist120)
      = Value (json_result result)
    /\ pl_videos (playlist result) = []
    /\ totalVideos (playlist result) = 120
    /\ List.length (selectedVideos result) = 11%nat.
Proof.
  eexists. split; [reflexivity|].
  destruct (result_shape Mock.service 3 (Some "key") (Mock.range 10 20)
              Mock.playlist120 _ _ eq_refl eq_refl) as (Hvideos & _).
  split; [exact Hvideos|]. split; reflexivity.
Defined.

(** * More of the route: request checks, failures, the order of the calls *)

Section Checks.

Context {S : Type} (service : Service S).

(** The three checks of the handler before the first call, passed. *)
Ltac enter_handler Hguard Hkey Hid :=
  unfold POST; rewrite try_catch_run;
  match type of Hguard with missingFields ?request = false =>
    fold (missingFields request)
  end;
  rewrite Hguard; cbn [Js.truthy_opt_string negb]; rewrite Hkey; cbn [negb];
  match type of Hkey with Js.truthy_string ?key = true =>
    replace (Js.or_else (Some key) "") with key
      by (unfold Js.or_else; cbn; now rewrite Hkey)
  end;
  rewrite Hid; cbn [Js.truthy_opt_string];
  match type of Hid with _ = Some ?playlistId =>
    let Hpid := fresh "Hpid" in
    destruct (extractPlaylistId_truthy _ _ Hid) as [_ Hpid];
    rewrite Hpid; cbn [negb];
    replace (Js.or_else (Some playlistId) "") with playlistId
      by (unfold Js.or_else; cbn; now rewrite Hpid)
  end.

Lemma POST_pages_thrown (budget : nat) (key : string) (request : RequestBody)
    (playlistId : string) (s s1 : S) (e : Thrown) (t1 : list Exchange) :
  missingFields request = false ->
  Js.truthy_string key = true ->
  extractPlaylistId (playlistUrl request) = Some playlistId ->
  fetchAllPlaylistItems service budget playlistId key s = (Throw e, s1, t1) ->
  POST service budget (Some key) request s
  = (Value (json_error (messageOf e) 500), s1, t1).
Proof.
  intros Hguard Hkey Hid Hfetch. enter_handler Hguard Hkey Hid.
  rewrite bind_run, Hfetch. unfold ret, messageOf. cbv beta iota.
  now rewrite List.app_nil_r.
Qed.

Lemma POST_pages_diverge (budget : nat) (key : string) (request : RequestBody)
    (playlistId : string) (s s1 : S) (t1 : list Exchange) :
  missingFields request = false ->
  Js.truthy_string key = true ->
  extractPlaylistId (playlistUrl request) = Some playlistId ->
  fetchAllPlaylistItems service budget playlistId key s = (Diverge, s1, t1) ->
  POST service budget (Some key) request s = (Diverge, s1, t1).
Proof.
  intros Hguard Hkey Hid Hfetch. enter_handler Hguard Hkey Hid.
  now rewrite bind_run, Hfetch.
Qed.

Lemma missingFields_spec (request : RequestBody) :
  missingFields request = true <->
  playlistUrl request = ""
  \/ (completePlaylist request = false
      /\ (startVideo request = 0 \/ endVideo request = 0)).
Proof.
  unfold missingFields, Js.truthy_number.
  destruct request as [url first last complete].
  cbn [playlistUrl startVideo endVideo completePlaylist].
  destruct url, complete, (Z.eqb_spec first 0), (Z.eqb_spec last 0);
    cbn; intuition (discriminate || congruence).
Qed.

Lemma POST_no_key (budget : nat) (apiKey : option string)
    (request : RequestBody) (s : S) :
  missingFields request = false ->
  Js.truthy_opt_string apiKey = false ->
  POST service budget apiKey request s
  = (Value (json_error "YouTube API key not configured" 500), s, []).
Proof.
  intros Hguard Hkey. unfold POST. rewrite try_catch_run.
  fold (missingFields request). now rewrite Hguard, Hkey.
Qed.

Lemma POST_bad_url (budget : nat) (key : string) (request : RequestBody)
    (s : S) :
  missingFields request = false ->
  Js.truthy_string key = true ->
  extractPlaylistId (playlistUrl request) = None ->
  POST service budget (Some key) request s
  = (Value (json_error "Invalid YouTube playlist URL" 400), s, []).
Proof.
  intros Hguard Hkey Hid. unfold POST. rewrite try_catch_run.
  fold (missingFields request). rewrite Hguard.
  cbn [Js.truthy_opt_string negb]. rewrite Hkey. cbn [negb].
  now rewrite Hid.
Qed.

(** X1 (lines 114-119).  A request without playlist URL, or with an explicit
    range of which the start or the end is missing or 0, is answered with
    status 400 and "Missing required fields" before anything else is looked
    at: whether or not the API key is configured, and without any call to
    the service. *)
Theorem POST_missing_fields (budget : nat) (apiKey : option string)
    (request : RequestBody) (s : S) :
  playlistUrl request = ""
  \/ (completePlaylist request = false
      /\ (startVideo request = 0 \/ endVideo request = 0)) ->
  POST service budget apiKey request s
  = (Value (json_error "Missing required fields" 400), s, []).
Proof.
  intros H. apply POST_missing. now apply missingFields_spec.
Qed.

(** X2 (lines 121-127).  When the fields are there and the API key is not
    configured, undefined or empty, the answer is status 500 with "YouTube
    API key not configured", whatever the URL is, and no call is made. *)
Theorem POST_key_not_configured (budget : nat) (apiKey : option string)
    (request : RequestBody) (s : S) :
  missingFields request = false ->
  apiKey = None \/ apiKey = Some "" ->
  POST service budget apiKey request s
  = (Value (json_error "YouTube API key not configured" 500), s, []).
Proof.
  intros Hguard Hkey. apply POST_no_key; [assumption|].
  now destruct Hkey as [-> | ->].
Qed.

(** X3 (lines 129-135).  When the fields and the key are there and the URL
    has no place where ["playlist?list="] stands behind one of the two
    hosts and before a character of the identifier, the answer is status 400
    with "Invalid YouTube playlist URL" and no call is made.  A URL without
    ["playlist?list="], such as the URL of a watch page with a [list]
    parameter, is one of these. *)
Theorem POST_invalid_url (budget : nat) (key : string) (request : RequestBody)
    (s : S) :
  missingFields request = false ->
  Js.truthy_string key = true ->
  (extractPlaylistId (playlistUrl request) = None ->
   POST service budget (Some key) request s
   = (Value (json_error "Invalid YouTube playlist URL" 400), s, []))
  /\ ((forall pre post, playlistUrl request <> pre ++ "playlist?list=" ++ post) ->
      POST service budget (Some key) request s
      = (Value (json_error "Invalid YouTube playlist URL" 400), s, [])).
Proof.
  intros Hguard Hkey.
  assert (Hnone : extractPlaylistId (playlistUrl request) = None ->
                  POST service budget (Some key) request s
                  = (Value (json_error "Invalid YouTube playlist URL" 400), s, [])).
  { intros Hid. now apply POST_bad_url. }
  split; [exact Hnone|]. intros Hno. apply Hnone.
  unfold extractPlaylistId. apply search_none. intros pre suf Heq.
  apply playlist_id_here_none. intros (host & c & rest & Hhost & _ & ->).
  destruct Hhost as [-> | ->].
  - apply (Hno (pre ++ "youtube.com/") (String c rest)).
    rewrite Heq. now rewrite append_assoc.
  - apply (Hno (pre ++ "youtu.be/") (String c rest)).
    rewrite Heq. now rewrite append_assoc.
Qed.

End Checks.

Section Failures.

Context {S : Type} (service : Service S).

Lemma fetchAllPlaylistItems_loop_turned (playlistId apiKey : string)
    (s s1 : S) (cursor cursor' : option string) (pages : list PlaylistResponse) :
  Turned service playlistId apiKey s cursor pages s1 cursor' ->
  forall (budget : nat) (allItems : list PlaylistItem),
    fetchAllPlaylistItems_loop service (List.length pages + budget) playlistId
      apiKey allItems cursor s
    = match fetchAllPlaylistItems_loop service budget playlistId apiKey
              (allItems ++ List.concat (map pr_items pages))%list cursor' s1
      with
      | (o, s2, t2) =>
          (o, s2, (pageCalls playlistId apiKey cursor pages ++ t2)%list)
      end.
Proof.
  induction 1 as [s cursor | s cursor page s1 pages s' cursor' Hresp Hmore Hrest IH];
    intros budget allItems.
  - cbn. rewrite List.app_nil_r.
    now destruct (fetchAllPlaylistItems_loop _ _ _ _ _ _ _) as [[o s2] t2].
  - cbn [List.length Nat.add fetchAllPlaylistItems_loop].
    rewrite (bind_value _ _ _ _ _ _ (fetchPlaylistItems_run _ _ _ _ _ Hresp)).
    rewrite Hmore, IH. cbn [map List.concat pageCalls].
    rewrite <- List.app_assoc.
    now destruct (fetchAllPlaylistItems_loop _ _ _ _ _ _ _) as [[o s2] t2].
Qed.

Lemma fetchAllPlaylistItems_thrown (playlistId apiKey : string)
    (s s1 s2 : S) (cursor : option string) (pages : list PlaylistResponse)
    (r : Fetched PlaylistResponse) (e : Thrown) (budget : nat) :
  Turned service playlistId apiKey s None pages s1 cursor ->
  playlistItems service s1 (pageQuery playlistId apiKey cursor) = (r, s2) ->
  thrownFor r "Failed to fetch playlist items" = Some e ->
  (List.length pages < budget)%nat ->
  fetchAllPlaylistItems service budget playlistId apiKey s
  = (Throw e, s2,
     (pageCalls playlistId apiKey None pages
      ++ [PlaylistItemsCall (pageQuery playlistId apiKey cursor) r])%list).
Proof.
  intros Hturned Hresp Hthrown Hbudget. unfold fetchAllPlaylistItems.
  replace budget with (List.length pages + Datatypes.S (budget - Datatypes.S (List.length pages)))%nat
    by lia.
  rewrite (fetchAllPlaylistItems_loop_turned _ _ _ _ _ _ _ Hturned).
  cbn [fetchAllPlaylistItems_loop].
  rewrite (bind_value _ _ _ _ _ _ (fetchPlaylistItems_run _ _ _ _ _ Hresp)).
  destruct r as [e' | [e' | message] | data]; cbn in Hthrown;
    try discriminate; injection Hthrown as <-; reflexivity.
Qed.

(** X4 (lines 54-82).  When the service has delivered some pages, each with
    a cursor, and then rejects the next request, [fetchAllPlaylistItems]
    throws: the rejection itself, or an [Error] with the message of the
    service and, when it gives none, "Failed to fetch playlist items".  The
    items of the pages before are not returned, and no request follows the
    rejected one. *)
Theorem fetchAllPlaylistItems_rejected (playlistId apiKey : string)
    (s s1 s2 : S) (cursor : option string) (pages : list PlaylistResponse)
    (r : Fetched PlaylistResponse) (e : Thrown) (budget : nat) :
  Turned service playlistId apiKey s None pages s1 cursor ->
  playlistItems service s1 (pageQuery playlistId apiKey cursor) = (r, s2) ->
  thrownFor r "Failed to fetch playlist items" = Some e ->
  (List.length pages < budget)%nat ->
  fetchAllPlaylistItems service budget playlistId apiKey s
  = (Throw e, s2,
     (pageCalls playlistId apiKey None pages
      ++ [PlaylistItemsCall (pageQuery playlistId apiKey cursor) r])%list).
Proof.
  intros Hturned Hresp Hthrown Hbudget.
  now apply fetchAllPlaylistItems_thrown with (s1 := s1).
Qed.

(** X5 (lines 58-79).  The paging loop has no bound of its own: against a
    service that answers every page request with a cursor it never returns.
    Whatever the budget, the run ends with the budget used up, one request
    made for every unit of it. *)
Theorem fetchAllPlaylistItems_no_page_cap (playlistId apiKey : string) :
  (forall s q, exists page s',
      playlistItems service s q = (Ok page, s')
      /\ Js.truthy_opt_string (pr_nextPageToken page) = true) ->
  forall (budget : nat) (s : S),
    let run := fetchAllPlaylistItems service budget playlistId apiKey s in
    outcome run = Diverge /\ List.length (calls run) = budget.
Proof.
  intros Hendless budget s. unfold fetchAllPlaylistItems.
  generalize (@nil PlaylistItem) (@None string). revert s.
  induction budget as [|budget IH]; intros s allItems cursor; [now cbn|].
  cbn [fetchAllPlaylistItems_loop].
  destruct (Hendless s (pageQuery playlistId apiKey cursor))
    as (page & s' & Hresp & Hmore).
  rewrite (bind_value _ _ _ _ _ _ (fetchPlaylistItems_run _ _ _ _ _ Hresp)).
  rewrite Hmore.
  specialize (IH s' (allItems ++ pr_items page)%list (pr_nextPageToken page)).
  cbv zeta in IH. destruct IH as [Hout Hlen].
  cbn [outcome calls fst snd List.length app]. now rewrite Hlen.
Qed.

End Failures.

Section DetailsFailure.

Context {S : Type} (service : Service S).
Variables (videoIds : list string) (apiKey : string).

Let batch (j : nat) : list string :=
  Js.slice videoIds (50 * Z.of_nat j) (50 * Z.of_nat j + 50).

Lemma fetchVideoDetails_loop_rejected (done : list (list string)) :
  forall (j k steps : nat) (allVideos : list VideoItem) (s s1 s2 : S)
         (responses : list VideosResponse) (current : list string)
         (later : list (list string)) (r : Fetched VideosResponse) (e : Thrown),
    (j + k = batchCount videoIds)%nat -> (k <= steps)%nat ->
    map batch (seq j k) = (done ++ current :: later)%list ->
    Answered service apiKey s done responses s1 ->
    videos service s1 (videosQuery apiKey current) = (r, s2) ->
    thrownFor r "Failed to fetch video details" = Some e ->
    fetchVideoDetails_loop service steps videoIds apiKey (50 * Z.of_nat j)
      allVideos s
    = (Throw e, s2,
       (videoCalls apiKey done (map Ok responses)
        ++ [VideosCall (videosQuery apiKey current) r])%list).
Proof.
  induction done as [|first done IH];
    intros j k steps allVideos s s1 s2 responses current later r e
           Hjk Hsteps Hsplit Hans Hresp Hthrown;
    (destruct k as [|k]; [discriminate|]);
    (destruct steps as [|steps]; [lia|]);
    rewrite fetchVideoDetails_loop_step by lia;
    cbn [seq map app] in Hsplit; injection Hsplit as Hhead Htail;
    unfold batch in Hhead; rewrite Hhead;
    inversion Hans as [|? ? data s' ? rest ? Hfirst Hrest]; subst;
    rewrite bind_run, fetchVideos_run.
  - rewrite Hresp. cbn [fst snd].
    destruct r as [e' | [e' | message] | data]; cbn in Hthrown;
      try discriminate; injection Hthrown as <-; reflexivity.
  - rewrite Hfirst. cbn [fst snd].
    rewrite (IH (Datatypes.S j) k steps _ s' s1 s2 rest current later r e)
      by (try lia; assumption).
    reflexivity.
Qed.

End DetailsFailure.

Section DetailsRejected.

Context {S : Type} (service : Service S).

Lemma fetchVideoDetails_thrown (videoIds : list string) (apiKey : string)
    (s s1 s2 : S) (done later : list (list string)) (current : list string)
    (responses : list VideosResponse) (r : Fetched VideosResponse)
    (e : Thrown) :
  batches videoIds = (done ++ current :: later)%list ->
  Answered service apiKey s done responses s1 ->
  videos service s1 (videosQuery apiKey current) = (r, s2) ->
  thrownFor r "Failed to fetch video details" = Some e ->
  fetchVideoDetails service videoIds apiKey s
  = (Throw e, s2,
     (videoCalls apiKey done (map Ok responses)
      ++ [VideosCall (videosQuery apiKey current) r])%list).
Proof.
  intros Hsplit Hans Hresp Hthrown. unfold fetchVideoDetails.
  change 0 with (50 * Z.of_nat 0) at 1.
  apply (fetchVideoDetails_loop_rejected service videoIds apiKey done 0
           (batchCount videoIds) (List.length videoIds) [] s s1 s2 responses
           current later r e); auto using batchCount_le_length.
Qed.

(** X6 (lines 84-108).  When the lookups of the first batches are answered
    and the service rejects the lookup of the next batch,
    [fetchVideoDetails] throws: the rejection itself, or an [Error] with the
    message of the service and, when it gives none, "Failed to fetch video
    details".  The metadata already fetched are not returned, and none of
    the batches after the rejected one is asked for. *)
Theorem fetchVideoDetails_rejected (videoIds : list string) (apiKey : string)
    (s s1 s2 : S) (done later : list (list string)) (current : list string)
    (responses : list VideosResponse) (r : Fetched VideosResponse)
    (e : Thrown) :
  batches videoIds = (done ++ current :: later)%list ->
  Answered service apiKey s done responses s1 ->
  videos service s1 (videosQuery apiKey current) = (r, s2) ->
  thrownFor r "Failed to fetch video details" = Some e ->
  let run := fetchVideoDetails service videoIds apiKey s in
  run = (Throw e, s2,
         (videoCalls apiKey done (map Ok responses)
          ++ [VideosCall (videosQuery apiKey current) r])%list)
  /\ List.length (calls run) = Datatypes.S (List.length done).
Proof.
  intros Hsplit Hans Hresp Hthrown run.
  assert (Hrun : run = (Throw e, s2,
                        (videoCalls apiKey done (map Ok responses)
                         ++ [VideosCall (videosQuery apiKey current) r])%list)).
  { subst run. now apply fetchVideoDetails_thrown with (s1 := s1) (later := later). }
  split; [exact Hrun|]. rewrite Hrun. cbn [calls snd].
  rewrite length_app, videoCalls_length, length_map.
  rewrite (Answered_length _ _ _ _ _ _ Hans). cbn. lia.
Qed.

End DetailsRejected.

Section Runs.

Context {S : Type} (service : Service S).

Lemma fetchVideoDetails_outcome (videoIds : list string) (apiKey : string)
    (s : S) :
  let run := fetchVideoDetails service videoIds apiKey s in
  outcome run <> Diverge
  /\ (forall x, In x (calls run) -> is_videos_call x = true)
  /\ exists responses,
       calls run = videoCalls apiKey (batches videoIds) responses
       /\ (forall allVideos, outcome run = Value allVideos ->
                             List.length responses = batchCount videoIds).
Proof.
  intros run.
  destruct (fetchVideoDetails_loop_calls service videoIds apiKey
              (batchCount videoIds) 0 (List.length videoIds) [] s
              eq_refl (batchCount_le_length videoIds))
    as (responses & Hcalls & _ & Hnd & Hval).
  change (fetchVideoDetails_loop service (List.length videoIds) videoIds apiKey
            (50 * Z.of_nat 0) [] s) with run in *.
  split; [exact Hnd|]. split.
  - rewrite Hcalls. unfold videoCalls. intros x Hin.
    apply in_map_iff in Hin as (br & <- & _). reflexivity.
  - exists responses. split; [exact Hcalls | exact Hval].
Qed.

Lemma fetchAllPlaylistItems_calls (budget : nat) (playlistId apiKey : string)
    (s : S) (x : Exchange) :
  In x (calls (fetchAllPlaylistItems service budget playlistId apiKey s)) ->
  is_videos_call x = false /\ is_playlists_call x = false.
Proof. apply fetchAllPlaylistItems_loop_calls. Qed.

(** The shape of every run of the handler: the page requests, then the
    details lookups, then the title lookup if the answer is a result. *)
Lemma POST_shape (budget : nat) (apiKey : option string)
    (request : RequestBody) (s : S) :
  let run := POST service budget apiKey request s in
  exists t1 t2 t3,
    calls run = (t1 ++ t2 ++ t3)%list
    /\ (forall x, In x t1 ->
                  is_videos_call x = false /\ is_playlists_call x = false)
    /\ (forall x, In x t2 -> is_videos_call x = true)
    /\ ((t3 = []
         /\ ((outcome run = Diverge
              /\ exists key playlistId,
                   apiKey = Some key
                   /\ extractPlaylistId (playlistUrl request) = Some playlistId
                   /\ outcome (fetchAllPlaylistItems service budget playlistId
                                 key s) = Diverge)
             \/ exists error st,
                  outcome run = Value (json_error error st)
                  /\ (st = 400 \/ st = 404 \/ st = 500)))
        \/ exists q r result,
             t3 = [PlaylistsCall q r]
             /\ outcome run = Value (json_result result)).
Proof.
  intros run. subst run.
  assert (Hearly : forall error st (s0 : S),
            st = 400 \/ st = 404 \/ st = 500 ->
            POST service budget apiKey request s
            = (Value (json_error error st), s0, []) ->
            exists t1 t2 t3,
              calls (POST service budget apiKey request s)
              = (t1 ++ t2 ++ t3)%list
              /\ (forall x, In x t1 ->
                    is_videos_call x = false /\ is_playlists_call x = false)
              /\ (forall x, In x t2 -> is_videos_call x = true)
              /\ ((t3 = []
                   /\ ((outcome (POST service budget apiKey request s) = Diverge
                        /\ exists key playlistId,
                             apiKey = Some key
                             /\ extractPlaylistId (playlistUrl request)
                                = Some playlistId
                             /\ outcome (fetchAllPlaylistItems service budget
                                           playlistId key s) = Diverge)
                       \/ exists error st,
                            outcome (POST service budget apiKey request s)
                            = Value (json_error error st)
                            /\ (st = 400 \/ st = 404 \/ st = 500)))
                  \/ exists q r result,
                       t3 = [PlaylistsCall q r]
                       /\ outcome (POST service budget apiKey request s)
                          = Value (json_result result))).
  { intros error st s0 Hst ->. exists [], [], [].
    split; [reflexivity|]. split; [easy|]. split; [easy|].
    left. split; [reflexivity|]. right. now exists error, st. }
  destruct (missingFields request) eqn:Hguard.
  { eapply Hearly; [|now apply POST_missing]. auto. }
  destruct (Js.truthy_opt_string apiKey) eqn:Hkey.
  2:{ eapply Hearly; [|now apply POST_no_key]. auto. }
  destruct apiKey as [key|]; [|discriminate]. cbn in Hkey.
  destruct (extractPlaylistId (playlistUrl request)) as [playlistId|] eqn:Hid.
  2:{ eapply Hearly; [|now apply POST_bad_url]. auto. }
  pose proof (fetchAllPlaylistItems_calls budget playlistId key s) as Hpages.
  destruct (fetchAllPlaylistItems service budget playlistId key s)
    as [[[playlistItems | e |] s1] t1] eqn:Hfetch; cbn [calls snd] in Hpages.
  2:{ rewrite (POST_pages_thrown service budget key request playlistId s s1 e t1)
        by assumption.
      exists t1, [], []. rewrite !List.app_nil_r.
      split; [reflexivity|]. split; [exact Hpages|]. split; [easy|].
      left. split; [reflexivity|]. right. eexists _, 500. split; [reflexivity|auto]. }
  2:{ rewrite (POST_pages_diverge service budget key request playlistId s s1 t1)
        by assumption.
      exists t1, [], []. rewrite !List.app_nil_r.
      split; [reflexivity|]. split; [exact Hpages|]. split; [easy|].
      left. split; [reflexivity|]. left. split; [reflexivity|].
      exists key, playlistId. now rewrite Hfetch. }
  destruct playlistItems as [|item playlistItems].
  { rewrite (POST_empty service budget key request s s1 playlistId t1)
      by assumption.
    exists t1, [], []. rewrite !List.app_nil_r.
    split; [reflexivity|]. split; [exact Hpages|]. split; [easy|].
    left. split; [reflexivity|]. right. eexists _, 404. split; [reflexivity|auto]. }
  rewrite (POST_fetched service budget key request s s1 playlistId
             (item :: playlistItems) t1) by (try assumption; discriminate).
  destruct (selectItems _ _ _ (item :: playlistItems)) as [selectedItems|].
  2:{ exists t1, [], []. rewrite !List.app_nil_r.
      split; [reflexivity|]. split; [exact Hpages|]. split; [easy|].
      left. split; [reflexivity|]. right. eexists _, 400. split; [reflexivity|auto]. }
  destruct (fetchVideoDetails_outcome (map item_videoId selectedItems) key s1)
    as (Hnd & Hvideos & _).
  destruct (fetchVideoDetails service (map item_videoId selectedItems) key s1)
    as [[[videoDetails | e |] s2] t2]; cbn [outcome calls fst snd] in Hnd, Hvideos.
  - exists t1, t2, [PlaylistsCall (playlistsQuery playlistId key)
                      (fst (playlists service s2 (playlistsQuery playlistId key)))].
    split; [reflexivity|]. split; [exact Hpages|]. split; [exact Hvideos|].
    right. eexists _, _, _. split; reflexivity.
  - exists t1, t2, []. rewrite !List.app_nil_r.
    split; [reflexivity|]. split; [exact Hpages|]. split; [exact Hvideos|].
    left. split; [reflexivity|]. right. eexists _, 500. split; [reflexivity|auto].
  - now elim Hnd.
Qed.

End Runs.

Section Answers.

Context {S : Type} (service : Service S).

(** X7 (lines 110-226).  No error escapes the handler.  A run ends with a
    response, unless the paging loop does not end, and the response is
    either the result with status 200 or an error message with status 400,
    404 or 500. *)
Theorem POST_never_throws (budget : nat) (apiKey : option string)
    (request : RequestBody) (s : S) :
  let run := POST service budget apiKey request s in
  (forall e, outcome run <> Throw e)
  /\ (outcome run = Diverge ->
      exists key playlistId,
        apiKey = Some key
        /\ extractPlaylistId (playlistUrl request) = Some playlistId
        /\ outcome (fetchAllPlaylistItems service budget playlistId key s)
           = Diverge)
  /\ (forall response,
        outcome run = Value response ->
        (status response = 200
         /\ exists result, body response = ResultBody result)
        \/ ((status response = 400 \/ status response = 404
             \/ status response = 500)
            /\ exists error, body response = ErrorBody error)).
Proof.
  intros run.
  destruct (POST_shape service budget apiKey request s)
    as (t1 & t2 & t3 & _ & _ & _ & Hend).
  fold run in Hend.
  destruct Hend as [[_ [[Hdiv Hwhy] | (error & st & Hout & Hst)]]
                   | (q & r & result & _ & Hout)].
  - rewrite Hdiv. split; [discriminate|]. split; [intros _; exact Hwhy|].
    discriminate.
  - rewrite Hout. split; [discriminate|]. split; [discriminate|].
    intros response [= <-]. right. split; [exact Hst | now exists error].
  - rewrite Hout. split; [discriminate|]. split; [discriminate|].
    intros response [= <-]. left. split; [reflexivity | now exists result].
Qed.

(** X8 (lines 138, 167, 194).  In every run the calls come in this order:
    the page requests of the membership, then the details lookups, then the
    title lookup.  The title lookup is made once and last, in the runs that
    answer with a result and in no other. *)
Theorem POST_call_order (budget : nat) (apiKey : option string)
    (request : RequestBody) (s : S) :
  let run := POST service budget apiKey request s in
  exists pageRequests lookups titleLookup,
    calls run = (pageRequests ++ lookups ++ titleLookup)%list
    /\ (forall x, In x pageRequests ->
                  exists q r, x = PlaylistItemsCall q r)
    /\ (forall x, In x lookups -> exists q r, x = VideosCall q r)
    /\ (titleLookup = [] \/ exists q r, titleLookup = [PlaylistsCall q r])
    /\ (titleLookup <> [] <->
        exists result, outcome run = Value (json_result result)).
Proof.
  intros run.
  destruct (POST_shape service budget apiKey request s)
    as (t1 & t2 & t3 & Hcalls & Hpages & Hvideos & Hend).
  fold run in Hcalls, Hend. exists t1, t2, t3.
  split; [exact Hcalls|]. split; [|split].
  - intros x Hx. destruct (Hpages x Hx) as [Hv Hp].
    destruct x as [q r | q r | q r]; [now exists q, r | discriminate..].
  - intros x Hx. pose proof (Hvideos x Hx) as Hv.
    destruct x as [q r | q r | q r]; [discriminate | now exists q, r | discriminate].
  - destruct Hend as [[-> [[Hdiv _] | (error & st & Hout & _)]]
                     | (q & r & result & -> & Hout)].
    + split; [now left|]. split; [easy|].
      intros (result & Hout). rewrite Hdiv in Hout. discriminate.
    + split; [now left|]. split; [easy|].
      intros (result & Hres). rewrite Hout in Hres. discriminate.
    + split; [right; now exists q, r|]. split; [now exists result | discriminate].
Qed.

(** X9 (lines 138, 219-224).  When a page request of the membership is
    rejected, after any number of pages, the handler answers with status 500
    and the message of what was thrown: the message of the service or
    "Failed to fetch playlist items".  It has made the page requests up to
    the rejected one and no other call. *)
Theorem POST_pages_failure (budget : nat) (key : string)
    (request : RequestBody) (playlistId : string) (s s1 s2 : S)
    (cursor : option string) (pages : list PlaylistResponse)
    (r : Fetched PlaylistResponse) (e : Thrown) :
  missingFields request = false ->
  Js.truthy_string key = true ->
  extractPlaylistId (playlistUrl request) = Some playlistId ->
  Turned service playlistId key s None pages s1 cursor ->
  playlistItems service s1 (pageQuery playlistId key cursor) = (r, s2) ->
  thrownFor r "Failed to fetch playlist items" = Some e ->
  (List.length pages < budget)%nat ->
  POST service budget (Some key) request s
  = (Value (json_error (messageOf e) 500), s2,
     (pageCalls playlistId key None pages
      ++ [PlaylistItemsCall (pageQuery playlistId key cursor) r])%list).
Proof.
  intros Hguard Hkey Hid Hturned Hresp Hthrown Hbudget.
  apply POST_pages_thrown with (playlistId := playlistId); try assumption.
  now apply fetchAllPlaylistItems_thrown with (s1 := s1).
Qed.

(** X10 (lines 167, 219-224).  When a details lookup is rejected, the
    handler answers with status 500 and the message of what was thrown: the
    message of the service or "Failed to fetch video details".  It has made
    the lookups up to the rejected one, and it has not asked for the title
    of the playlist. *)
Theorem POST_details_failure (budget : nat) (key : string)
    (request : RequestBody) (playlistId : string) (s s1 s2 s3 : S)
    (playlistItems selectedItems : list PlaylistItem) (t1 : list Exchange)
    (done later : list (list string)) (current : list string)
    (responses : list VideosResponse) (r : Fetched VideosResponse)
    (e : Thrown) :
  missingFields request = false ->
  Js.truthy_string key = true ->
  extractPlaylistId (playlistUrl request) = Some playlistId ->
  fetchAllPlaylistItems service budget playlistId key s
    = (Value playlistItems, s1, t1) ->
  playlistItems <> [] ->
  selectItems (completePlaylist request) (startVideo request)
    (endVideo request) playlistItems = Some selectedItems ->
  batches (map item_videoId selectedItems) = (done ++ current :: later)%list ->
  Answered service key s1 done responses s2 ->
  videos service s2 (videosQuery key current) = (r, s3) ->
  thrownFor r "Failed to fetch video details" = Some e ->
  let run := POST service budget (Some key) request s in
  run = (Value (json_error (messageOf e) 500), s3,
         (t1 ++ videoCalls key done (map Ok responses)
             ++ [VideosCall (videosQuery key current) r])%list)
  /\ forall x, In x (calls run) -> is_playlists_call x = false.
Proof.
  intros Hguard Hkey Hid Hfetch Hne Hsel Hsplit Hans Hresp Hthrown run.
  assert (Hrun : run = (Value (json_error (messageOf e) 500), s3,
                        (t1 ++ videoCalls key done (map Ok responses)
                            ++ [VideosCall (videosQuery key current) r])%list)).
  { subst run.
    rewrite (POST_fetched service budget key request s s1 playlistId
               playlistItems t1) by assumption.
    rewrite Hsel.
    now rewrite (fetchVideoDetails_thrown service _ key s1 s2 s3 done later
                   current responses r e Hsplit Hans Hresp Hthrown). }
  split; [exact Hrun|]. rewrite Hrun. cbn [calls snd]. intros x Hx.
  apply in_app_or in Hx as [Hx | Hx].
  - pose proof (fetchAllPlaylistItems_calls service budget playlistId key s x)
      as Hpages.
    rewrite Hfetch in Hpages. now apply Hpages.
  - apply in_app_or in Hx as [Hx | [<- | []]]; [|reflexivity].
    unfold videoCalls in Hx. apply in_map_iff in Hx as (br & <- & _). reflexivity.
Qed.

(** X11 (lines 114, 150-151).  With [completePlaylist] set, [startVideo] and
    [endVideo] play no part: the handler does the same, and answers the
    same, whatever they are, the -1 and the 0 included. *)
Theorem POST_complete_ignores_range (budget : nat) (apiKey : option string)
    (request : RequestBody) (s : S) (startVideo' endVideo' : Z) :
  completePlaylist request = true ->
  POST service budget apiKey
    (mkRequestBody (playlistUrl request) startVideo' endVideo' true) s
  = POST service budget apiKey request s.
Proof.
  destruct request as [url first last complete]. cbn. intros ->.
  reflexivity.
Qed.

End Answers.

(** * More of the route: what the result holds *)

Lemma toVideoData_duration (videoDetails : list VideoItem) (item : PlaylistItem) :
  durationSeconds (toVideoData videoDetails item)
  = parseDuration (duration (toVideoData videoDetails item)).
Proof.
  unfold toVideoData. cbn [durationSeconds duration].
  destruct (find _ videoDetails) as [detail|]; [|reflexivity].
  cbn [option_map]. unfold Js.or_else. cbn [Js.truthy_opt_string].
  now destruct (video_duration detail).
Qed.

Lemma sum_between (durations : list Z) (lo hi : Z) :
  (forall d, In d durations -> lo <= d <= hi) ->
  lo * Z.of_nat (List.length durations)
  <= fold_right Z.add 0 durations
  <= hi * Z.of_nat (List.length durations).
Proof.
  induction durations as [|d l IH]; intros Hall; [simpl; lia|].
  specialize (IH (fun x Hx => Hall x (or_intror Hx))).
  pose proof (Hall d (or_introl eq_refl)).
  cbn [fold_right List.length]. lia.
Qed.

Lemma sum_nonneg (durations : list Z) :
  (forall d, In d durations -> 0 <= d) -> 0 <= fold_right Z.add 0 durations.
Proof.
  induction durations as [|d l IH]; intros Hall; [simpl; lia|].
  specialize (IH (fun x Hx => Hall x (or_intror Hx))).
  pose proof (Hall d (or_introl eq_refl)). cbn [fold_right]. lia.
Qed.

Section Results.

Context {S : Type} (service : Service S).

(** X12 (lines 170-180).  In every response that carries a result, the
    seconds of each selected video are the decoding of the duration text
    that the same entry carries, and they are not negative: the two fields
    never disagree, also when the metadata are missing or their duration is
    empty. *)
Theorem POST_durations_agree (budget : nat) (apiKey : option string)
    (request : RequestBody) (s : S) (response : HttpResponse)
    (result : ResultsData) :
  outcome (POST service budget apiKey request s) = Value response ->
  body response = ResultBody result ->
  forall video, In video (selectedVideos result) ->
    durationSeconds video = parseDuration (duration video)
    /\ 0 <= durationSeconds video
    /\ duration video <> "".
Proof.
  intros Hout Hbody video Hin.
  destruct (POST_run service budget apiKey request s)
    as [(key & playlistId & playlistItems & selectedItems & videoDetails
         & s1 & t1 & s2 & t2 & _ & _ & _ & _ & _ & _ & _ & _ & _ & Hrun)
       | [Herr _]].
  2:{ destruct (Herr _ Hout) as (error & st & -> & _). discriminate. }
  cbv zeta in Hrun. rewrite Hrun in Hout. cbn [outcome fst] in Hout.
  injection Hout as <-. cbn [body json_result] in Hbody. injection Hbody as <-.
  cbn [resultOf selectedVideos] in Hin.
  apply in_map_iff in Hin as (item & <- & _).
  split; [apply toVideoData_duration|].
  split; [rewrite toVideoData_duration; apply parseDuration_nonneg|].
  unfold toVideoData. cbn [duration].
  destruct (find _ videoDetails) as [detail|]; [|discriminate].
  cbn [option_map]. unfold Js.or_else. cbn [Js.truthy_opt_string].
  destruct (video_duration detail); discriminate.
Qed.

(** X13 (lines 183-184).  In every response that carries a result whose
    total is below 2^52, the average lies between 0 and the total; more
    closely, the average lies between any two bounds between which the
    seconds of all the selected videos lie. *)
Theorem POST_average_bounds (budget : nat) (apiKey : option string)
    (request : RequestBody) (s : S) (response : HttpResponse)
    (result : ResultsData) :
  outcome (POST service budget apiKey request s) = Value response ->
  body response = ResultBody result ->
  totalDuration result < 2 ^ 52 ->
  0 <= averageDuration result <= totalDuration result
  /\ forall lo hi,
       (forall video, In video (selectedVideos result) ->
                      lo <= durationSeconds video <= hi) ->
       lo <= averageDuration result <= hi.
Proof.
  intros Hout Hbody _.
  destruct (POST_run service budget apiKey request s)
    as [(key & playlistId & playlistItems & selectedItems & videoDetails
         & s1 & t1 & s2 & t2 & _ & _ & _ & _ & _ & _ & Hne & Hsel & _ & Hrun)
       | [Herr _]].
  2:{ destruct (Herr _ Hout) as (error & st & -> & _). discriminate. }
  cbv zeta in Hrun. rewrite Hrun in Hout. cbn [outcome fst] in Hout.
  injection Hout as <-. cbn [body json_result] in Hbody. injection Hbody as <-.
  cbn [resultOf selectedVideos totalDuration averageDuration].
  pose proof (selectItems_nonempty _ _ _ _ _ Hne Hsel) as Hcount.
  set (selected := map (toVideoData videoDetails) selectedItems).
  set (count := Z.of_nat (List.length selected)).
  assert (Hpos : 1 <= count) by (subst count selected; rewrite length_map; lia).
  unfold average. fold count. rewrite Math_round_div by lia.
  rewrite sumDurations_fold. set (total := fold_right Z.add 0 _).
  assert (Hbetween : forall lo hi,
            (forall video, In video selected ->
                           lo <= durationSeconds video <= hi) ->
            lo * count <= total <= hi * count).
  { intros lo hi Hall. subst total count.
    rewrite <- (length_map durationSeconds selected).
    apply sum_between. intros d Hd.
    apply in_map_iff in Hd as (video & <- & Hv). now apply Hall. }
  assert (Hround : forall lo hi,
            lo * count <= total <= hi * count ->
            lo <= (2 * total + count) / (2 * count) <= hi).
  { intros lo hi [Hlo Hhi]. split.
    - apply Z.div_le_lower_bound; nia.
    - apply Z.lt_succ_r. apply Z.div_lt_upper_bound; nia. }
  assert (Hnonneg : forall video, In video selected -> 0 <= durationSeconds video).
  { intros video Hin. subst selected. apply in_map_iff in Hin as (item & <- & _).
    rewrite toVideoData_duration. apply parseDuration_nonneg. }
  assert (Htotal : 0 <= total).
  { subst total. apply sum_nonneg. intros d Hd.
    apply in_map_iff in Hd as (video & <- & Hv). now apply Hnonneg. }
  split.
  - split.
    + apply Z.div_le_lower_bound; nia.
    + apply Z.lt_succ_r. apply Z.div_lt_upper_bound; nia.
  - intros lo hi Hall. apply Hround. now apply Hbetween.
Qed.

End Results.

Lemma filter_none {A : Type} (f : A -> bool) (l : list A) :
  (forall x, In x l -> f x = false) -> filter f l = [].
Proof.
  induction l as [|a l IH]; intros Hall; [reflexivity|]. cbn.
  rewrite (Hall a (or_introl eq_refl)). apply IH.
  intros x Hx. apply Hall. now right.
Qed.

Lemma filter_all {A : Type} (f : A -> bool) (l : list A) :
  (forall x, In x l -> f x = true) -> filter f l = l.
Proof.
  induction l as [|a l IH]; intros Hall; [reflexivity|]. cbn.
  rewrite (Hall a (or_introl eq_refl)). f_equal. apply IH.
  intros x Hx. apply Hall. now right.
Qed.

Section Selection.

Context {S : Type} (service : Service S).

(** X14 (lines 148-180).  In every response that carries a result for an
    explicit range, the range was valid, [1 <= start <= end] and
    [start <= N] for the [N] of [playlist.totalVideos]; the selected videos
    are [min end N - start + 1], and the one at place [p - start] has the id
    and the title of the entry at position [p] of the membership, for every
    [p] from [start] to [min end N].  For the complete playlist the selected
    videos are the [N] entries of the membership, in order. *)
Theorem POST_selected_range (budget : nat) (apiKey : option string)
    (request : RequestBody) (s : S) (response : HttpResponse)
    (result : ResultsData) :
  outcome (POST service budget apiKey request s) = Value response ->
  body response = ResultBody result ->
  let N := totalVideos (playlist result) in
  let first := startVideo request in
  let last := Z.min (endVideo request) N in
  exists key playlistId playlistItems s1 t1,
    apiKey = Some key
    /\ extractPlaylistId (playlistUrl request) = Some playlistId
    /\ fetchAllPlaylistItems service budget playlistId key s
       = (Value playlistItems, s1, t1)
    /\ (completePlaylist request = true ->
        map id (selectedVideos result) = map item_videoId playlistItems
        /\ map title (selectedVideos result) = map item_title playlistItems)
    /\ (completePlaylist request = false ->
        1 <= first <= endVideo request /\ first <= N
        /\ Z.of_nat (List.length (selectedVideos result)) = last - first + 1
        /\ forall p, first <= p <= last ->
             exists item video,
               nth_error playlistItems (Z.to_nat (p - 1)) = Some item
               /\ nth_error (selectedVideos result) (Z.to_nat (p - first))
                  = Some video
               /\ id video = item_videoId item
               /\ title video = item_title item).
Proof.
  intros Hout Hbody N first last.
  destruct (POST_run service budget apiKey request s)
    as [(key & playlistId & playlistItems & selectedItems & videoDetails
         & s1 & t1 & s2 & t2 & Hkey & _ & _ & _ & Hid & Hfetch & Hne & Hsel
         & _ & Hrun)
       | [Herr _]].
  2:{ destruct (Herr _ Hout) as (error & st & -> & _). discriminate. }
  cbv zeta in Hrun. rewrite Hrun in Hout. cbn [outcome fst] in Hout.
  injection Hout as <-. cbn [body json_result] in Hbody. injection Hbody as <-.
  subst N first last.
  cbn [resultOf selectedVideos playlist totalVideos].
  exists key, playlistId, playlistItems, s1, t1.
  do 3 (split; [assumption|]). split.
  - intros Hcomplete. rewrite Hcomplete in Hsel. injection Hsel as <-.
    rewrite !map_map. split; reflexivity.
  - intros Hexplicit. rewrite Hexplicit in Hsel.
    set (N := Z.of_nat (List.length playlistItems)) in *.
    assert (Hvalid : ~ (startVideo request < 1
                        \/ endVideo request < startVideo request
                        \/ startVideo request > N)).
    { intros H. apply selectItems_invalid in H. fold N in H. congruence. }
    rewrite selectItems_explicit in Hsel by (fold N; lia). fold N in Hsel.
    injection Hsel as <-.
    assert (Hlo : 0 <= startVideo request - 1 <= Z.min (endVideo request) N)
      by lia.
    assert (Hhi : Z.min (endVideo request) N
                  <= Z.of_nat (List.length playlistItems)) by (fold N; lia).
    split; [lia|]. split; [lia|]. split.
    + rewrite length_map, slice_length by assumption. lia.
    + intros p Hp.
      destruct (nth_error playlistItems (Z.to_nat (p - 1))) as [item|] eqn:Hitem.
      2:{ apply nth_error_None in Hitem. lia. }
      exists item, (toVideoData videoDetails item).
      split; [reflexivity|]. split; [|split; reflexivity].
      apply map_nth_error. rewrite slice_nth by (try assumption; lia).
      rewrite <- Hitem. f_equal. lia.
Qed.

(** X15 (lines 164-167).  In every response that carries a result, the
    details lookups that were made are one for each batch of the ids of the
    selected videos, in order, and for no other id: [ceil(n/50)] lookups
    for [n] selected videos, a single one up to 50 videos. *)
Theorem POST_details_requests (budget : nat) (apiKey : option string)
    (request : RequestBody) (s : S) (response : HttpResponse)
    (result : ResultsData) :
  outcome (POST service budget apiKey request s) = Value response ->
  body response = ResultBody result ->
  let ids := map id (selectedVideos result) in
  let lookups := filter is_videos_call (calls (POST service budget apiKey request s)) in
  exists key responses,
    apiKey = Some key
    /\ lookups = videoCalls key (batches ids) responses
    /\ List.length responses = List.length (batches ids)
    /\ Z.of_nat (List.length lookups) = (Z.of_nat (List.length ids) + 49) / 50
    /\ ((List.length ids <= 50)%nat -> List.length lookups = 1%nat).
Proof.
  intros Hout Hbody ids lookups.
  destruct (POST_run service budget apiKey request s)
    as [(key & playlistId & playlistItems & selectedItems & videoDetails
         & s1 & t1 & s2 & t2 & Hkey & _ & _ & _ & Hid & Hfetch & Hne & Hsel
         & Hvideos & Hrun)
       | [Herr _]].
  2:{ destruct (Herr _ Hout) as (error & st & -> & _). discriminate. }
  cbv zeta in Hrun. subst lookups. rewrite Hrun in Hout |- *.
  cbn [outcome fst] in Hout.
  injection Hout as <-. cbn [body json_result] in Hbody. injection Hbody as <-.
  subst ids. cbn [resultOf selectedVideos calls snd].
  rewrite map_map. cbn [toVideoData id].
  change (map (fun x => item_videoId x) selectedItems)
    with (map item_videoId selectedItems).
  destruct (fetchVideoDetails_outcome service (map item_videoId selectedItems)
              key s1) as (_ & Hall & responses & Hcalls & Hlen).
  rewrite Hvideos in Hall, Hcalls, Hlen. cbn [outcome calls fst snd] in *.
  specialize (Hlen _ eq_refl).
  pose proof (fetchAllPlaylistItems_calls service budget playlistId key s)
    as Hpages.
  rewrite Hfetch in Hpages. cbn [calls snd] in Hpages.
  rewrite !filter_app, (filter_none _ t1), (filter_all _ t2) by
    (first [exact Hall | intros x Hx; now apply Hpages]).
  cbn [filter is_videos_call app]. rewrite List.app_nil_r.
  pose proof (selectItems_nonempty _ _ _ _ _ Hne Hsel) as Hcount.
  exists key, responses.
  split; [assumption|]. split; [assumption|].
  split; [now rewrite batches_length|].
  assert (Hn : List.length t2 = batchCount (map item_videoId selectedItems)).
  { rewrite Hcalls, videoCalls_length, batches_length, Hlen. apply Nat.min_id. }
  rewrite Hn. unfold batchCount. rewrite length_map.
  split.
  - rewrite Z2Nat.id; [reflexivity | apply Z.div_pos; lia].
  - intros Hfew. zify. Z.div_mod_to_equations. lia.
Qed.

End Selection.

(** * More of [parseDuration] *)

Lemma all_app (cls : ascii -> bool) (a b : string) :
  Js.all cls (a ++ b) = Js.all cls a && Js.all cls b.
Proof.
  induction a as [|c a IH]; cbn; [reflexivity|]. now rewrite IH, andb_assoc.
Qed.

Lemma all_weaken (cls cls' : ascii -> bool) (s : string) :
  (forall c, cls c = true -> cls' c = true) ->
  Js.all cls s = true -> Js.all cls' s = true.
Proof.
  intros Hsub. induction s as [|c s IH]; cbn; [reflexivity|].
  intros H. apply andb_prop in H as [Hc Hs]. now rewrite (Hsub c Hc), IH.
Qed.

Lemma digit_not_P (c : ascii) : Js.is_digit c = true -> not_P c = true.
Proof.
  unfold not_P. destruct (Ascii.eqb_spec c "P") as [-> | _]; [discriminate | reflexivity].
Qed.

Lemma search_cons {A : Type} (match_here : string -> option A) (c : ascii)
    (s : string) :
  Js.search match_here (String c s)
  = match match_here (String c s) with
    | Some r => Some r
    | None => Js.search match_here s
    end.
Proof. reflexivity. Qed.

Lemma strip_designator_not_P (c : ascii) (s : string) :
  not_P c = true -> Js.strip_prefix "PT" (String c s) = None.
Proof.
  unfold not_P. intros H. cbn [Js.strip_prefix].
  destruct (Ascii.eqb_spec "P" c) as [<- | _];
    [vm_compute in H; discriminate | reflexivity].
Qed.

Lemma search_duration_no_P (s : string) :
  Js.all not_P s = true -> Js.search duration_here s = None.
Proof.
  induction s as [|c s IH]; [reflexivity|]. cbn [Js.all].
  intros H. apply andb_prop in H as [Hc Hs]. rewrite search_cons.
  assert (duration_here (String c s) = None) as ->.
  { apply duration_here_none. now apply strip_designator_not_P. }
  now apply IH.
Qed.

Lemma search_duration_skip (pre d : string) :
  Js.all not_P pre = true ->
  Js.search duration_here (pre ++ "PT" ++ d)
  = Js.search duration_here ("PT" ++ d).
Proof.
  induction pre as [|c pre IH]; [reflexivity|]. cbn [Js.all]. intros H.
  apply andb_prop in H as [Hc Hs].
  change (String c pre ++ "PT" ++ d) with (String c (pre ++ "PT" ++ d)).
  rewrite search_cons.
  assert (duration_here (String c (pre ++ "PT" ++ d)) = None) as ->.
  { apply duration_here_none. now apply strip_designator_not_P. }
  now apply IH.
Qed.

(** X16 (lines 40-52).  A duration with a day part, ["P1DT2H3M4S"] for a
    video of more than a day, decodes to 0: the expression asks for ['P']
    and ['T'] side by side, and the days stand between them. *)
Theorem parseDuration_day_part (days : N) (time : string) :
  Js.all not_P time = true ->
  parseDuration ("P" ++ Js.toString days ++ "DT" ++ time) = 0.
Proof.
  intros Htime. unfold parseDuration.
  assert (Js.search duration_here ("P" ++ Js.toString days ++ "DT" ++ time)
          = None) as ->; [|reflexivity].
  change ("P" ++ Js.toString days ++ "DT" ++ time)
    with (String "P" (Js.toString days ++ "DT" ++ time)).
  rewrite search_cons.
  assert (duration_here (String "P" (Js.toString days ++ "DT" ++ time)) = None)
    as ->.
  { apply duration_here_none.
    pose proof (toString_nonempty days) as Hne.
    pose proof (toString_digits days) as Hdigits.
    destruct (Js.toString days) as [|c digits]; [now elim Hne|].
    cbn [Js.all] in Hdigits. apply andb_prop in Hdigits as [Hc _].
    cbn [append Js.strip_prefix]. rewrite Ascii.eqb_refl.
    destruct (Ascii.eqb_spec "T" c) as [<- | _];
      [vm_compute in Hc; discriminate | reflexivity]. }
  apply search_duration_no_P. rewrite all_app. cbn [append Js.all].
  rewrite (all_weaken _ _ _ digit_not_P (toString_digits days)), Htime.
  reflexivity.
Qed.

Lemma search_duration_format (h m : option N) (s : N) (tail : string) :
  Js.search duration_here (spec_format h m (Some s) ++ tail)
  = Js.search duration_here (spec_format h m (Some s)).
Proof.
  unfold spec_format. rewrite !append_assoc.
  simpl Js.search. unfold duration_here. simpl Js.strip_prefix.
  assert (Hpresent : forall n u rest,
            Js.is_digit u = false ->
            duration_component u (Js.toString n ++ String u rest)
            = (Some (Js.toString n), rest)).
  { intros n u rest Hu. rewrite duration_component_digits;
      auto using toString_nonempty, toString_digits.
    now rewrite Ascii.eqb_refl. }
  assert (Hother : forall n u c rest,
            Js.is_digit c = false -> Ascii.eqb c u = false ->
            duration_component u (Js.toString n ++ String c rest)
            = (None, Js.toString n ++ String c rest)).
  { intros n u c rest Hc Hcu. rewrite duration_component_digits;
      auto using toString_nonempty, toString_digits.
    now rewrite Hcu. }
  destruct h as [h|], m as [m|]; unfold spec_component;
    repeat rewrite append_assoc; simpl append;
    repeat first
      [ rewrite Hpresent by reflexivity
      | rewrite Hother by reflexivity ];
    reflexivity.
Qed.

(** X17 (lines 40-52).  The text around a duration is ignored: before the
    first ["PT"] anything without a ['P'], after the seconds anything at
    all.  The string decodes as the duration alone does: to
    [h*3600 + m*60 + s] when that number is [MAX_SAFE_INTEGER] at most. *)
Theorem parseDuration_lenient (pre tail : string) (h m : option N) (s : N) :
  Js.all not_P pre = true ->
  parseDuration (pre ++ spec_format h m (Some s) ++ tail)
  = parseDuration (spec_format h m (Some s))
  /\ (spec_value h * 3600 + spec_value m * 60 + Z.of_N s <= MAX_SAFE_INTEGER ->
      parseDuration (pre ++ spec_format h m (Some s) ++ tail)
      = spec_value h * 3600 + spec_value m * 60 + Z.of_N s).
Proof.
  intros Hpre.
  assert (Hsame : parseDuration (pre ++ spec_format h m (Some s) ++ tail)
                  = parseDuration (spec_format h m (Some s))).
  { unfold parseDuration at 1 2.
    assert (Js.search duration_here (pre ++ spec_format h m (Some s) ++ tail)
            = Js.search duration_here (spec_format h m (Some s))) as ->;
      [|reflexivity].
    rewrite <- (search_duration_format h m s tail).
    unfold spec_format. rewrite !append_assoc.
    now apply search_duration_skip. }
  split; [exact Hsame|].
  intros _. rewrite Hsame. apply parseDuration_format.
Qed.

(** * The page: seconds as text *)

Module PageFacts.

Import Page.

Lemma parts_of (h m r : Z) :
  0 <= h -> 0 <= m < 60 -> 0 <= r < 60 ->
  let seconds := 3600 * h + 60 * m + r in
  seconds / 3600 = h /\ Z.rem seconds 3600 / 60 = m /\ Z.rem seconds 60 = r.
Proof.
  intros Hh Hm Hr seconds. subst seconds.
  rewrite !Z.rem_mod_nonneg by lia.
  repeat split; Z.div_mod_to_equations; lia.
Qed.

Lemma parts_exist (seconds : Z) :
  0 <= seconds ->
  exists h m r,
    0 <= h /\ 0 <= m < 60 /\ 0 <= r < 60 /\ seconds = 3600 * h + 60 * m + r.
Proof.
  intros Hs. exists (seconds / 3600), (seconds mod 3600 / 60), (seconds mod 60).
  Z.div_mod_to_equations; lia.
Qed.

(** X18 (page.tsx, lines 54-66).  The text of [formatDuration] for a
    duration of [h] hours, [m] minutes and [r] seconds that is
    [MAX_SAFE_INTEGER] seconds at most.  From one hour on:
    the hours and the minutes, the seconds left out.  Below an hour, from
    one minute on: the minutes, then a blank, then, when there are seconds,
    another blank and the seconds; so the text has two blanks in a row, or
    ends with a blank.  Below a minute: the seconds.  Every unit is in the
    plural unless its number is 1. *)
Theorem formatDuration_text (h m r : Z) :
  0 <= h -> 0 <= m < 60 -> 0 <= r < 60 ->
  3600 * h + 60 * m + r <= MAX_SAFE_INTEGER ->
  let plural n := if n =? 1 then "" else "s" in
  formatDuration (3600 * h + 60 * m + r)
  = if 0 <? h then
      numberToString h ++ " hr" ++ plural h ++ " "
      ++ numberToString m ++ " min" ++ plural m
    else if 0 <? m then
      numberToString m ++ " min" ++ plural m ++ " "
      ++ (if 0 <? r
          then " " ++ numberToString r ++ " sec" ++ plural r
          else "")
    else numberToString r ++ " sec" ++ plural r.
Proof.
  intros Hh Hm Hr _ plural.
  destruct (parts_of h m r Hh Hm Hr) as (Hhours & Hminutes & Hsecs).
  unfold formatDuration. cbv zeta in Hhours, Hminutes, Hsecs |- *.
  rewrite Hhours, Hminutes, Hsecs. subst plural.
  rewrite !Z.gtb_ltb.
  destruct (0 <? h), (0 <? m), (0 <? r), (h =? 1), (m =? 1), (r =? 1);
    reflexivity.
Qed.

(** X19 (page.tsx, lines 54-78).  From one hour on, [formatDuration] does
    not show the seconds: a duration and the same duration cut to the whole
    minute have the same text.  [formatDurationDetailed] gives that same
    text from one hour on. *)
Theorem formatDuration_hides_seconds (seconds : Z) :
  3600 <= seconds ->
  formatDuration seconds = formatDuration (seconds - Z.rem seconds 60)
  /\ formatDurationDetailed seconds = formatDuration seconds.
Proof.
  intros Hs.
  destruct (parts_exist seconds ltac:(lia)) as (h & m & r & Hh & Hm & Hr & ->).
  destruct (parts_of h m r Hh Hm Hr) as (Hhours & Hminutes & Hsecs).
  destruct (parts_of h m 0 Hh Hm ltac:(lia)) as (Hhours' & Hminutes' & Hsecs').
  cbv zeta in *. rewrite Hsecs.
  replace (3600 * h + 60 * m + r - r) with (3600 * h + 60 * m + 0) by lia.
  unfold formatDuration, formatDurationDetailed.
  rewrite Hhours, Hminutes, Hhours', Hminutes'.
  assert ((h >? 0) = true) as -> by (apply Z.gtb_lt; lia).
  split; reflexivity.
Qed.

Lemma append_cancel (p x y : string) : p ++ x = p ++ y -> x = y.
Proof.
  induction p as [|c p IH]; cbn; [trivial|]. intros [= H]. now apply IH.
Qed.

Lemma numberToString_nonneg (n : Z) :
  0 <= n -> numberToString n = Js.toString (Z.to_N n).
Proof.
  intros Hn. unfold numberToString.
  destruct (Z.ltb_spec n 0); [lia | reflexivity].
Qed.

Lemma numberToString_head (a b : Z) (x y : string) :
  0 <= a -> 0 <= b ->
  numberToString a ++ String " " x = numberToString b ++ String " " y ->
  a = b /\ x = y.
Proof.
  intros Ha Hb Heq. rewrite !numberToString_nonneg in Heq by assumption.
  assert (Hspan : Js.span Js.is_digit (Js.toString (Z.to_N a) ++ String " " x)
                  = Js.span Js.is_digit (Js.toString (Z.to_N b) ++ String " " y))
    by now rewrite Heq.
  rewrite !span_app in Hspan by (first [apply toString_digits | reflexivity]).
  injection Hspan as Hdigits Hrest.
  assert (Z.of_N (Z.to_N a) = Z.of_N (Z.to_N b))
    by now rewrite <- !parseInt10_toString, Hdigits.
  split; [lia | congruence].
Qed.

(** X20 (page.tsx, lines 68-78).  Below an hour [formatDurationDetailed]
    loses nothing: two durations with the same text are the same. *)
Theorem formatDurationDetailed_injective (a b : Z) :
  0 <= a < 3600 -> 0 <= b < 3600 ->
  formatDurationDetailed a = formatDurationDetailed b -> a = b.
Proof.
  intros Ha Hb.
  destruct (parts_exist a ltac:(lia)) as (ha & ma & ra & Hha & Hma & Hra & ->).
  destruct (parts_exist b ltac:(lia)) as (hb & mb & rb & Hhb & Hmb & Hrb & ->).
  assert (ha = 0) as -> by lia. assert (hb = 0) as -> by lia.
  destruct (parts_of 0 ma ra ltac:(lia) Hma Hra) as (Hh1 & Hm1 & Hr1).
  destruct (parts_of 0 mb rb ltac:(lia) Hmb Hrb) as (Hh2 & Hm2 & Hr2).
  cbv zeta in *. unfold formatDurationDetailed.
  rewrite Hh1, Hm1, Hr1, Hh2, Hm2, Hr2. cbn [Z.gtb Z.compare].
  intros Heq.
  change (" min" ++ ?x) with (String " " ("min" ++ x)) in Heq.
  apply numberToString_head in Heq as [-> Heq]; try lia.
  apply (append_cancel "min") in Heq. apply append_cancel in Heq.
  change (" " ++ ?x) with (String " " x) in Heq. injection Heq as Heq.
  change (" sec" ++ ?x) with (String " " ("sec" ++ x)) in Heq.
  apply numberToString_head in Heq as [-> _]; lia.
Qed.

End PageFacts.

Module PlaybackFacts.

Import Page.

Lemma adjustedSeconds_fraction (totalSeconds : Z) (a b : positive) :
  adjustedSeconds totalSeconds (Zpos a # b)
  = (2 * totalSeconds * Zpos b + Zpos a) / (2 * Zpos a).
Proof.
  unfold adjustedSeconds, Js.Math_round, Qdiv, Qinv, Qmult, Qplus, Qfloor,
    inject_Z; simpl Qnum; simpl Qden.
  f_equal; lia.
Qed.

Lemma Qdiv_le_speed (total s1 s2 : Q) :
  (0 <= total)%Q -> (0 < s1)%Q -> (s1 <= s2)%Q ->
  (total / s2 <= total / s1)%Q.
Proof.
  intros Ht Hs1 Hs12.
  assert (Hs2 : (0 < s2)%Q) by (eapply Qlt_le_trans; eassumption).
  apply Qle_shift_div_r; [assumption|].
  apply Qle_trans with (total / s1 * s1)%Q.
  - unfold Qdiv. rewrite <- Qmult_assoc, (Qmult_comm (/ s1)), Qmult_inv_r.
    + rewrite Qmult_1_r. apply Qle_refl.
    + intros H. rewrite H in Hs1. now apply Qlt_irrefl in Hs1.
  - rewrite !(Qmult_comm (total / s1)).
    apply Qmult_le_compat_r; [assumption|].
    apply Qle_shift_div_l; [assumption|]. now rewrite Qmult_0_l.
Qed.

Lemma adjustedSeconds_le (totalSeconds : Z) (s1 s2 : Q) :
  0 <= totalSeconds -> (0 < s1)%Q -> (s1 <= s2)%Q ->
  adjustedSeconds totalSeconds s2 <= adjustedSeconds totalSeconds s1.
Proof.
  intros Ht Hs1 Hs12. unfold adjustedSeconds, Js.Math_round.
  apply Qfloor_resp_le. apply Qplus_le_l.
  apply Qdiv_le_speed; try assumption.
  change 0%Q with (inject_Z 0). now rewrite <- Zle_Qle.
Qed.

Lemma adjustedSeconds_one (totalSeconds : Z) :
  adjustedSeconds totalSeconds 1 = totalSeconds.
Proof.
  change 1%Q with (1 # 1)%Q. rewrite adjustedSeconds_fraction.
  Z.div_mod_to_equations; lia.
Qed.

(** X21 (page.tsx, lines 80-83).  For a total that is not negative, the
    seconds that [calculatePlaybackTime] formats do not grow with the speed:
    a greater speed never gives more seconds.  Speed 1 gives the total
    itself, any speed from 1 on gives the total at most, and nothing
    negative. *)
Theorem adjustedSeconds_monotone (totalSeconds : Z) (s1 s2 : Q) :
  0 <= totalSeconds -> (0 < s1)%Q -> (s1 <= s2)%Q ->
  adjustedSeconds totalSeconds s2 <= adjustedSeconds totalSeconds s1
  /\ calculatePlaybackTime totalSeconds 1 = formatDuration totalSeconds
  /\ ((1 <= s1)%Q -> 0 <= adjustedSeconds totalSeconds s1 <= totalSeconds).
Proof.
  intros Ht Hs1 Hs12.
  split; [now apply adjustedSeconds_le|]. split.
  - unfold calculatePlaybackTime. now rewrite adjustedSeconds_one.
  - intros Hfast. split.
    + unfold adjustedSeconds, Js.Math_round.
      change 0 with (Qfloor 0). apply Qfloor_resp_le.
      apply Qle_trans with (inject_Z totalSeconds / s1)%Q.
      * apply Qle_shift_div_l; [assumption|]. rewrite Qmult_0_l.
        change 0%Q with (inject_Z 0). now rewrite <- Zle_Qle.
      * rewrite <- (Qplus_0_r (inject_Z totalSeconds / s1)) at 1.
        apply Qplus_le_r. discriminate.
    + rewrite <- (adjustedSeconds_one totalSeconds) at 2.
      apply adjustedSeconds_le; try assumption. reflexivity.
Qed.

(** X22 (page.tsx, lines 80-83, 118).  The seconds behind the five rows of
    the table of playback speeds, 1, 1.25, 1.5, 1.75 and 2, for a total [t]
    that is not negative and below 2^50: [t], then [t/1.25], [t/1.5],
    [t/1.75] and [t/2] each rounded to the nearest integer, a half going
    up.  They never increase from one row to the next. *)
Theorem playbackSpeeds_estimates (totalSeconds : Z) :
  0 <= totalSeconds < 2 ^ 50 ->
  let t := totalSeconds in
  map (adjustedSeconds t) playbackSpeeds
  = [t; (8 * t + 5) / 10; (4 * t + 3) / 6; (8 * t + 7) / 14; (t + 1) / 2]
  /\ (8 * t + 5) / 10 <= t
  /\ (4 * t + 3) / 6 <= (8 * t + 5) / 10
  /\ (8 * t + 7) / 14 <= (4 * t + 3) / 6
  /\ (t + 1) / 2 <= (8 * t + 7) / 14.
Proof.
  intros [Ht _] t. split.
  - unfold playbackSpeeds. cbn [map].
    rewrite adjustedSeconds_one.
    change 2%Q with (2 # 1)%Q. rewrite !adjustedSeconds_fraction.
    Z.div_mod_to_equations. repeat f_equal; lia.
  - repeat split; Z.div_mod_to_equations; lia.
Qed.

End PlaybackFacts.

(** * The further properties at work on the scripted service *)

Lemma POST_missing_fields_witness :
  POST Mock.service 1 None (Mock.range 0 5) Mock.playlist3
  = (Value (json_error "Missing required fields" 400), Mock.playlist3, []).
Proof.
  apply (POST_missing_fields Mock.service 1 None (Mock.range 0 5)).
  right. split; [reflexivity | left; reflexivity].
Defined.

Lemma POST_key_not_configured_witness :
  POST Mock.service 1 (Some "") (Mock.range 1 3) Mock.playlist3
  = (Value (json_error "YouTube API key not configured" 500),
     Mock.playlist3, []).
Proof.
  apply (POST_key_not_configured Mock.service 1 (Some "") (Mock.range 1 3));
    [reflexivity | right; reflexivity].
Defined.

Lemma POST_invalid_url_witness :
  POST Mock.service 1 (Some "key")
    (mkRequestBody "https://www.youtube.com/watch?v=dQw4w9WgXcQ&list=PLx" 1 3 false)
    Mock.playlist3
  = (Value (json_error "Invalid YouTube playlist URL" 400), Mock.playlist3, []).
Proof.
  destruct (POST_invalid_url Mock.service 1 "key"
              (mkRequestBody
                 "https://www.youtube.com/watch?v=dQw4w9WgXcQ&list=PLx" 1 3 false)
              Mock.playlist3 eq_refl eq_refl) as [Hnone _].
  apply Hnone. reflexivity.
Defined.

Lemma fetchAllPlaylistItems_rejected_witness :
  outcome (fetchAllPlaylistItems Mock.service 5 "PLx0_a-9" "key"
             Scenario.quotaAfterTwoPages)
  = Throw (Error "quotaExceeded")
  /\ List.length (calls (fetchAllPlaylistItems Mock.service 5 "PLx0_a-9" "key"
                           Scenario.quotaAfterTwoPages)) = 3%nat.
Proof.
  assert (Hturned :
            Turned Mock.service "PLx0_a-9" "key" Scenario.quotaAfterTwoPages
              None [Mock.page1; Mock.page2]
              (Mock.mkScript [NotOk (inr (Some "quotaExceeded"))] [] [])
              (Some "CAIQAA")).
  { eapply Turned_page; [reflexivity | reflexivity |].
    eapply Turned_page; [reflexivity | reflexivity |].
    apply Turned_none. }
  rewrite (fetchAllPlaylistItems_rejected Mock.service "PLx0_a-9" "key" _ _
             (Mock.mkScript [] [] []) _ _
             (NotOk (inr (Some "quotaExceeded"))) (Error "quotaExceeded") 5
             Hturned eq_refl eq_refl ltac:(simpl; lia)).
  split; reflexivity.
Defined.

Lemma fetchAllPlaylistItems_no_page_cap_witness :
  outcome (fetchAllPlaylistItems Scenario.endless 7 "PLx0_a-9" "key" tt)
  = Diverge
  /\ List.length (calls (fetchAllPlaylistItems Scenario.endless 7 "PLx0_a-9"
                           "key" tt)) = 7%nat.
Proof.
  apply (fetchAllPlaylistItems_no_page_cap Scenario.endless "PLx0_a-9" "key").
  intros s q. eexists _, _. split; reflexivity.
Defined.

Lemma fetchVideoDetails_rejected_witness :
  let videoIds := map item_videoId (Mock.items 1 120) in
  let run := fetchVideoDetails Mock.service videoIds "key"
               Scenario.detailsRefused in
  outcome run = Throw (Error "Failed to fetch video details")
  /\ List.length (calls run) = 2%nat.
Proof.
  intros videoIds run.
  destruct (fetchVideoDetails_rejected Mock.service videoIds "key"
              Scenario.detailsRefused
              (Mock.mkScript (Mock.pages Scenario.detailsRefused)
                 [NotOk (inr None);
                  Ok (mkVideosResponse (Mock.metadata 101 20))]
                 (Mock.titles Scenario.detailsRefused))
              (Mock.mkScript (Mock.pages Scenario.detailsRefused)
                 [Ok (mkVideosResponse (Mock.metadata 101 20))]
                 (Mock.titles Scenario.detailsRefused))
              [map item_videoId (Mock.items 1 50)]
              [map item_videoId (Mock.items 101 20)]
              (map item_videoId (Mock.items 51 50))
              [mkVideosResponse (Mock.metadata 1 50)]
              (NotOk (inr None))
              (Error "Failed to fetch video details"))
    as [Hrun Hlen].
  - vm_compute. reflexivity.
  - eapply Answered_batch; [reflexivity | apply Answered_none].
  - reflexivity.
  - reflexivity.
  - fold run in Hrun, Hlen. split; [now rewrite Hrun | exact Hlen].
Defined.

Lemma POST_never_throws_witness :
  outcome (POST Mock.service 5 (Some "key") Mock.wholePlaylist
             Scenario.quotaAfterTwoPages) <> Throw (Error "quotaExceeded")
  /\ outcome (POST Mock.service 5 (Some "key") Mock.wholePlaylist
                Scenario.quotaAfterTwoPages) <> Diverge.
Proof.
  destruct (POST_never_throws Mock.service 5 (Some "key") Mock.wholePlaylist
              Scenario.quotaAfterTwoPages) as (Hthrow & Hdiverge & _).
  split; [apply Hthrow|]. intros Hdiv.
  destruct (Hdiverge Hdiv) as (key & playlistId & Hkey & Hid & Hpages).
  injection Hkey as <-. vm_compute in Hid. injection Hid as <-.
  vm_compute in Hpages. discriminate.
Defined.

Lemma POST_call_order_witness :
  let run := POST Mock.service 3 (Some "key") Mock.wholePlaylist
               Mock.playlist120 in
  exists pageRequests lookups titleLookup,
    calls run = (pageRequests ++ lookups ++ titleLookup)%list
    /\ (forall x, In x pageRequests -> exists q r, x = PlaylistItemsCall q r)
    /\ (forall x, In x lookups -> exists q r, x = VideosCall q r)
    /\ (titleLookup = [] \/ exists q r, titleLookup = [PlaylistsCall q r])
    /\ (titleLookup <> [] <->
        exists result, outcome run = Value (json_result result)).
Proof.
  exact (POST_call_order Mock.service 3 (Some "key") Mock.wholePlaylist
           Mock.playlist120).
Defined.

Lemma POST_pages_failure_witness :
  outcome (POST Mock.service 5 (Some "key") Mock.wholePlaylist
             Scenario.quotaAfterTwoPages)
  = Value (json_error "quotaExceeded" 500).
Proof.
  assert (Hturned :
            Turned Mock.service "PLx0_a-9" "key" Scenario.quotaAfterTwoPages
              None [Mock.page1; Mock.page2]
              (Mock.mkScript [NotOk (inr (Some "quotaExceeded"))] [] [])
              (Some "CAIQAA")).
  { eapply Turned_page; [reflexivity | reflexivity |].
    eapply Turned_page; [reflexivity | reflexivity |].
    apply Turned_none. }
  rewrite (POST_pages_failure Mock.service 5 "key" Mock.wholePlaylist
             "PLx0_a-9" _ _ (Mock.mkScript [] [] []) _ _
             (NotOk (inr (Some "quotaExceeded"))) (Error "quotaExceeded")
             eq_refl eq_refl eq_refl Hturned eq_refl eq_refl
             ltac:(simpl; lia)).
  reflexivity.
Defined.

Lemma POST_complete_ignores_range_witness :
  POST Mock.service 1 (Some "key")
    (mkRequestBody Mock.url 0 0 true) Mock.playlist3
  = POST Mock.service 1 (Some "key") Mock.wholePlaylist Mock.playlist3.
Proof.
  apply (POST_complete_ignores_range Mock.service 1 (Some "key")
           Mock.wholePlaylist Mock.playlist3 0 0).
  reflexivity.
Defined.

Lemma POST_details_failure_witness :
  outcome (POST Mock.service 3 (Some "key") Mock.wholePlaylist
             Scenario.detailsRefused)
  = Value (json_error "Failed to fetch video details" 500)
  /\ forall x,
       In x (calls (POST Mock.service 3 (Some "key") Mock.wholePlaylist
                      Scenario.detailsRefused)) ->
       is_playlists_call x = false.
Proof.
  destruct (POST_details_failure Mock.service 3 "key" Mock.wholePlaylist
              "PLx0_a-9" Scenario.detailsRefused
              (Mock.mkScript [] (Mock.details Scenario.detailsRefused)
                 (Mock.titles Scenario.detailsRefused))
              (Mock.mkScript []
                 [NotOk (inr None);
                  Ok (mkVideosResponse (Mock.metadata 101 20))]
                 (Mock.titles Scenario.detailsRefused))
              (Mock.mkScript []
                 [Ok (mkVideosResponse (Mock.metadata 101 20))]
                 (Mock.titles Scenario.detailsRefused))
              (Mock.items 1 120) (Mock.items 1 120)
              (calls (fetchAllPlaylistItems Mock.service 3 "PLx0_a-9" "key"
                        Scenario.detailsRefused))
              [map item_videoId (Mock.items 1 50)]
              [map item_videoId (Mock.items 101 20)]
              (map item_videoId (Mock.items 51 50))
              [mkVideosResponse (Mock.metadata 1 50)]
              (NotOk (inr None))
              (Error "Failed to fetch video details"))
    as [Hrun Hcalls].
  - reflexivity.
  - reflexivity.
  - reflexivity.
  - vm_compute. reflexivity.
  - discriminate.
  - reflexivity.
  - vm_compute. reflexivity.
  - eapply Answered_batch; [reflexivity | apply Answered_none].
  - reflexivity.
  - reflexivity.
  - split; [now rewrite Hrun | exact Hcalls].
Defined.

Lemma POST_durations_agree_witness :
  let video := toVideoData
                 [mkVideoItem (Mock.videoIdOf 3) "" "PT5M";
                  mkVideoItem (Mock.videoIdOf 1) "" "PT2M";
                  mkVideoItem (Mock.videoIdOf 2) "" "PT3M"]
                 (mkPlaylistItem "Video 2" (Mock.videoIdOf 2)) in
  durationSeconds video = parseDuration (duration video)
  /\ 0 <= durationSeconds video
  /\ duration video <> "".
Proof.
  intros video.
  apply (POST_durations_agree Mock.service 1 (Some "key") Mock.wholePlaylist
           Mock.playlist3 _ _ eq_refl eq_refl video).
  right; left. reflexivity.
Defined.

Lemma POST_average_bounds_witness :
  exists result,
    outcome (POST Mock.service 1 (Some "key") Mock.wholePlaylist Mock.playlist3)
    = Value (json_result result)
    /\ 0 <= averageDuration result <= totalDuration result
    /\ 120 <= averageDuration result <= 300.
Proof.
  eexists. split; [reflexivity|].
  destruct (POST_average_bounds Mock.service 1 (Some "key") Mock.wholePlaylist
              Mock.playlist3 _ _ eq_refl eq_refl eq_refl) as [Hzero Hbetween].
  split; [exact Hzero|]. apply Hbetween.
  intros video [<- | [<- | [<- | []]]]; vm_compute; split; discriminate.
Defined.

Lemma POST_selected_range_witness :
  exists result,
    outcome (POST Mock.service 3 (Some "key") (Mock.range 110 500)
               Mock.playlist120)
    = Value (json_result result)
    /\ Z.of_nat (List.length (selectedVideos result)) = 11
    /\ map id (selectedVideos result)
       = map item_videoId (Mock.items 110 11).
Proof.
  eexists. split; [reflexivity|].
  destruct (POST_selected_range Mock.service 3 (Some "key") (Mock.range 110 500)
              Mock.playlist120 _ _ eq_refl eq_refl)
    as (key & playlistId & playlistItems & s1 & t1 & _ & _ & _ & _ & Hrange).
  destruct (Hrange eq_refl) as (_ & _ & Hlen & _).
  split; [rewrite Hlen; reflexivity | reflexivity].
Defined.

Lemma POST_details_requests_witness :
  List.length
    (filter is_videos_call
       (calls (POST Mock.service 3 (Some "key") Mock.wholePlaylist
                 Mock.playlist120))) = 3%nat
  /\ List.length
       (filter is_videos_call
          (calls (POST Mock.service 3 (Some "key") (Mock.range 10 20)
                    Mock.playlist120))) = 1%nat.
Proof.
  destruct (POST_details_requests Mock.service 3 (Some "key")
              Mock.wholePlaylist Mock.playlist120 _ _ eq_refl eq_refl)
    as (key & responses & _ & _ & _ & Hcount & _).
  destruct (POST_details_requests Mock.service 3 (Some "key")
              (Mock.range 10 20) Mock.playlist120 _ _ eq_refl eq_refl)
    as (key' & responses' & _ & _ & _ & _ & Hone).
  split; [|apply Hone; vm_compute; lia].
  apply Nat2Z.inj. rewrite Hcount. reflexivity.
Defined.

Lemma parseDuration_day_part_witness : parseDuration "P1DT2H3M4S" = 0.
Proof. exact (parseDuration_day_part 1 "2H3M4S" eq_refl). Defined.

Lemma parseDuration_lenient_witness :
  parseDuration "length: PT1H2M3S (about an hour)" = parseDuration "PT1H2M3S"
  /\ parseDuration "length: PT1H2M3S (about an hour)" = 3723.
Proof.
  destruct (parseDuration_lenient "length: " " (about an hour)" (Some 1%N)
              (Some 2%N) 3%N eq_refl) as [Hsame Hvalue].
  split; [exact Hsame|]. apply Hvalue. discriminate.
Defined.

Lemma formatDuration_text_witness :
  Page.formatDuration 3723 = "1 hr 2 mins"
  /\ Page.formatDuration 125 = "2 mins  5 secs"
  /\ Page.formatDuration 120 = "2 mins "
  /\ Page.formatDuration 1 = "1 sec"
  /\ Page.formatDuration MAX_SAFE_INTEGER = "2501999792983 hrs 36 mins".
Proof.
  split; [|split; [|split; [|split]]].
  - exact (PageFacts.formatDuration_text 1 2 3 ltac:(lia) ltac:(lia) ltac:(lia)
             ltac:(discriminate)).
  - exact (PageFacts.formatDuration_text 0 2 5 ltac:(lia) ltac:(lia) ltac:(lia)
             ltac:(discriminate)).
  - exact (PageFacts.formatDuration_text 0 2 0 ltac:(lia) ltac:(lia) ltac:(lia)
             ltac:(discriminate)).
  - exact (PageFacts.formatDuration_text 0 0 1 ltac:(lia) ltac:(lia) ltac:(lia)
             ltac:(discriminate)).
  - exact (PageFacts.formatDuration_text 2501999792983 36 31 ltac:(lia)
             ltac:(lia) ltac:(lia) ltac:(discriminate)).
Defined.

Lemma formatDuration_hides_seconds_witness :
  Page.formatDuration 3723 = Page.formatDuration 3720
  /\ Page.formatDurationDetailed 3723 = Page.formatDuration 3723.
Proof. exact (PageFacts.formatDuration_hides_seconds 3723 ltac:(lia)). Defined.

Lemma formatDurationDetailed_injective_witness :
  Page.formatDurationDetailed 125 = "2 mins 5 secs" /\ 60 * 2 + 5 = 125.
Proof.
  split; [reflexivity|].
  exact (PageFacts.formatDurationDetailed_injective (60 * 2 + 5) 125
           ltac:(lia) ltac:(lia) eq_refl).
Defined.

Lemma adjustedSeconds_monotone_witness :
  Page.adjustedSeconds 100 (3 # 2) <= Page.adjustedSeconds 100 (5 # 4)
  /\ Page.calculatePlaybackTime 100 1 = Page.formatDuration 100
  /\ 0 <= Page.adjustedSeconds 100 (5 # 4) <= 100.
Proof.
  destruct (PlaybackFacts.adjustedSeconds_monotone 100 (5 # 4) (3 # 2))
    as (Hle & Hone & Hfast); [lia | reflexivity | discriminate |].
  split; [exact Hle|]. split; [exact Hone|]. apply Hfast. discriminate.
Defined.

Lemma playbackSpeeds_estimates_witness :
  map (Page.adjustedSeconds 100) Page.playbackSpeeds = [100; 80; 67; 57; 50]
  /\ map (Page.adjustedSeconds (2 ^ 50 - 1)) Page.playbackSpeeds
     = [1125899906842623; 900719925474098; 750599937895082;
        643371375338642; 562949953421312].
Proof.
  split.
  - destruct (PlaybackFacts.playbackSpeeds_estimates 100 ltac:(lia))
      as [Hrows _].
    exact Hrows.
  - destruct (PlaybackFacts.playbackSpeeds_estimates (2 ^ 50 - 1) ltac:(lia))
      as [Hrows _].
    exact Hrows.
Defined.
